(** * A file-backed JSON document store (main.go), embedded in Rocq

    The driver of main.go keeps one JSON file per resource, one directory
    per collection, below a root directory.  Its four operations ([Write],
    [Read], [ReadAll], [Delete]) are sequences of calls into Go's
    [path/filepath], [os], [io/ioutil], [encoding/json] and [sync]
    packages.  This development has three layers:

    - [filepath]: [Clean] and [Join] on path strings;
    - [os]: a POSIX directory tree and the calls the driver makes on it;
    - the driver itself, as state-passing functions that also record the
      lock operations and system calls they perform. *)

From Stdlib Require Import ZArith Ascii DecimalString.
From stdpp Require Import gmap strings list fin_maps sorting.

(** ** path/filepath (Unix) *)

Module filepath.

Definition Separator : ascii := "/"%char.

(** [strings.Split(s, "/")]: the separator-free pieces of [s], in order.
    The result is never empty. *)
Fixpoint split (s : string) : list string :=
  match s with
  | "" => [""]
  | String c s' =>
      if decide (c = Separator) then "" :: split s'
      else match split s' with
           | [] => [String c ""]
           | x :: xs => String c x :: xs
           end
  end.

(** [strings.Join(l, "/")]. *)
Fixpoint join_sep (l : list string) : string :=
  match l with
  | [] => ""
  | [x] => x
  | x :: l' => x +:+ "/" +:+ join_sep l'
  end.

Definition rooted (path : string) : bool :=
  match path with
  | String c _ => bool_decide (c = Separator)
  | "" => false
  end.

(** One iteration of the loop of [Clean], on the path element [c]; the
    output buffer is kept as the stack [out] of the elements written so
    far, last one first.  Empty and [.] elements are dropped; [..]
    removes the last real element, is dropped at the root and is kept at
    the front of a relative path. *)
Definition clean_step (is_rooted : bool) (out : list string) (c : string)
    : list string :=
  if decide (c = "" ∨ c = ".") then out
  else if decide (c = "..") then
    match out with
    | top :: rest => if decide (top = "..") then ".." :: out else rest
    | [] => if is_rooted then [] else [".."]
    end
  else c :: out.

Definition clean_elems (path : string) : list string :=
  rev (foldl (clean_step (rooted path)) [] (split path)).

(** [filepath.Clean]: the shortest path equivalent to [path] by purely
    lexical processing; ["."] for an empty result. *)
Definition Clean (path : string) : string :=
  if rooted path then "/" +:+ join_sep (clean_elems path)
  else match clean_elems path with
       | [] => "."
       | out => join_sep out
       end.

(** [filepath.Join]: the elements from the first non-empty one on are
    joined with the separator and cleaned; [""] when all are empty. *)
Fixpoint Join (elem : list string) : string :=
  match elem with
  | [] => ""
  | e :: rest =>
      if decide (e = "") then Join rest else Clean (join_sep elem)
  end.

(** A path element that names a file or directory: not empty, not [.],
    not [..], and without a separator. *)
Fixpoint sep_free (s : string) : bool :=
  match s with
  | "" => true
  | String c s' => if decide (c = Separator) then false else sep_free s'
  end.

Definition is_name (s : string) : bool :=
  bool_decide (s ≠ "" ∧ s ≠ "." ∧ s ≠ "..") && sep_free s.

End filepath.


(** ** Errors *)

Inductive errno :=
  ENOENT | ENOTDIR | EISDIR | EEXIST | EINVAL | EBUSY | ENOTEMPTY | ENAMETOOLONG.

(** Go's [error] values, as far as the driver produces or inspects them:
    [*os.PathError], [*os.LinkError], the results of [fmt.Errorf] and the
    errors of [encoding/json]. *)
Inductive error :=
  | PathError (op path : string) (err : errno)
  | LinkError (op old new : string) (err : errno)
  | Errorf (msg : string)
  | JSONError (msg : string).

(** A Go result pair [(T, error)]. *)
Inductive result (A : Type) :=
  | Ok (a : A)
  | Err (e : error).
Arguments Ok {A} a.
Arguments Err {A} e.

Global Instance errno_eq_dec : EqDecision errno.
Proof. solve_decision. Defined.
Global Instance error_eq_dec : EqDecision error.
Proof. solve_decision. Defined.

(** ** os and io/ioutil on a POSIX directory tree

    The tree is a finite map from locations (the names from the file-system
    root down) to nodes.  There are no symbolic links, permissions or
    special files, and a call never fails for lack of space.  The limits on
    paths and names ([PATH_MAX], [NAME_MAX], no NUL byte) are checked where
    a call creates a name: [MkdirAll], [WriteFile] and [Rename].  A call
    that only looks a name up reports a name that is not in the tree as
    [ENOENT] whatever its length. *)

Module os.

Inductive node :=
  | Dir
  | File (data : string).

Abbreviation tree := (gmap (list string) node).

Record FS := mkFS { cwd : list string; nodes : tree }.

Record FileInfo := mkFileInfo { Name : string; IsDir : bool }.

Definition IsRegular (fi : FileInfo) : bool := negb (IsDir fi).

Definition info_of (name : string) (n : node) : FileInfo :=
  mkFileInfo name (match n with Dir => true | File _ => false end).

(** [os.IsNotExist]. *)
Definition IsNotExist (e : error) : bool :=
  match e with
  | PathError _ _ ENOENT | LinkError _ _ _ ENOENT => true
  | _ => false
  end.

(** *** Path resolution

    The kernel resolves a path element by element, from the root for a
    rooted path and from the working directory otherwise.  The stack
    holds the location reached, last name first.  The driver hands the
    kernel only paths built by [filepath.Join], possibly with a suffix
    appended, in which [..] occurs only in front: resolving it lexically
    is exact there. *)
Definition resolve_step (loc : list string) (c : string) : list string :=
  if decide (c = "" ∨ c = ".") then loc
  else if decide (c = "..") then tail loc
  else c :: loc.

Definition resolve (fs : FS) (path : string) : option (list string) :=
  if decide (path = "") then None
  else Some (rev (foldl resolve_step
                    (if filepath.rooted path then [] else rev (cwd fs))
                    (filepath.split path))).

(** Descend from location [at_] along [rest]: every location on the way
    has to be a directory. *)
Fixpoint walk (m : tree) (at_ rest : list string) : errno + node :=
  match m !! at_ with
  | None => inl ENOENT
  | Some n =>
      match rest with
      | [] => inr n
      | c :: rest' =>
          match n with
          | Dir => walk m (at_ ++ [c]) rest'
          | File _ => inl ENOTDIR
          end
      end
  end.

Definition locate (fs : FS) (path : string) : errno + (list string * node) :=
  match resolve fs path with
  | None => inl ENOENT
  | Some loc =>
      match walk (nodes fs) [] loc with
      | inl e => inl e
      | inr n => inr (loc, n)
      end
  end.

Definition base (loc : list string) : string := List.last loc "/".

(** [os.Stat]. *)
Definition Stat (path : string) (fs : FS) : result FileInfo :=
  match locate fs path with
  | inl e => Err (PathError "stat" path e)
  | inr (loc, n) => Ok (info_of (base loc) n)
  end.

(** *** What a path may look like

    Go refuses a path with a NUL byte in it before it asks the kernel
    ([EINVAL]).  The kernel refuses a path of [PATH_MAX] bytes or more, the
    final NUL counted, and the file system holds no name of more than
    [NAME_MAX] bytes (both [ENAMETOOLONG]). *)
Definition NAME_MAX : nat := 255.
Definition PATH_MAX : nat := 4096.

Fixpoint has_nul (s : string) : bool :=
  match s with
  | "" => false
  | String c s' => if decide (c = "000"%char) then true else has_nul s'
  end.

Definition refused (path : string) : option errno :=
  if has_nul path then Some EINVAL
  else if bool_decide (PATH_MAX ≤ String.length path) then Some ENAMETOOLONG
  else None.

Definition name_ok (c : string) : bool :=
  bool_decide (String.length c ≤ NAME_MAX).

(** May the call that was given [path] create the last name of [loc]? *)
Definition creatable (path : string) (loc : list string) : option errno :=
  match refused path with
  | Some e => Some e
  | None => if name_ok (base loc) then None else Some ENAMETOOLONG
  end.

(** The front of [path] that leads to the location from which the
    elements [rest] are still to come: [path] without [/c] for every [c]
    of [rest]. *)
Definition upto (path : string) (rest : list string) : string :=
  String.substring 0
    (String.length path - sum_list ((λ c, S (String.length c)) <$> rest)) path.

Arguments refused : simpl never.
Arguments name_ok : simpl never.
Arguments creatable : simpl never.
Arguments upto : simpl never.

(** [os.MkdirAll].  The fast path: a path that [Stat] finds is either a
    directory, and nothing is left to do, or in the way.  The slow path
    makes sure of the parent first and then calls [Mkdir], recursively;
    this comes to a descent from the top that creates what is missing with
    one [Mkdir] each, on the front of the path that leads there.  A regular
    file on the way is an error.  The first [Mkdir] that fails ends the
    call: the error names the path of that [Mkdir], and the directories
    made before it stay. *)
Fixpoint mkdir_all (path : string) (m : tree) (at_ rest : list string)
    : option (string * errno) * tree :=
  let here := upto path rest in
  match m !! at_ with
  | Some (File _) => (Some (here, ENOTDIR), m)
  | found =>
      match (match found with None => creatable here at_ | _ => None end) with
      | Some e => (Some (here, e), m)
      | None =>
          let m' := match found with None => <[at_ := Dir]> m | _ => m end in
          match rest with
          | [] => (None, m')
          | c :: rest' => mkdir_all path m' (at_ ++ [c]) rest'
          end
      end
  end.

Definition MkdirAll (path : string) (fs : FS) : option error * FS :=
  match Stat path fs with
  | Ok fi =>
      if IsDir fi then (None, fs)
      else (Some (PathError "mkdir" path ENOTDIR), fs)
  | Err _ =>
      match resolve fs path with
      | None => (Some (PathError "mkdir" path ENOENT), fs)
      | Some loc =>
          let made := mkdir_all path (nodes fs) [] loc in
          (match made.1 with
           | Some (here, e) => Some (PathError "mkdir" here e)
           | None => None
           end,
           mkFS (cwd fs) made.2)
      end
  end.

(** The directory that holds [loc] has to exist. *)
Definition parent_dir (m : tree) (loc : list string) : option errno :=
  match walk m [] (removelast loc) with
  | inl e => Some e
  | inr (File _) => Some ENOTDIR
  | inr Dir => None
  end.

(** [ioutil.WriteFile]: create or truncate the file and write [data]. *)
Definition WriteFile (name data : string) (fs : FS) : option error * FS :=
  let fail e := (Some (PathError "open" name e), fs) in
  match refused name, resolve fs name with
  | Some e, _ => fail e
  | None, None => fail ENOENT
  | None, Some loc =>
      match parent_dir (nodes fs) loc with
      | Some e => fail e
      | None =>
          if name_ok (base loc) then
            match nodes fs !! loc with
            | Some Dir => fail EISDIR
            | _ => (None, mkFS (cwd fs) (<[loc := File data]> (nodes fs)))
            end
          else fail ENAMETOOLONG
      end
  end.

(** [ioutil.ReadFile]. *)
Definition ReadFile (name : string) (fs : FS) : result string :=
  match locate fs name with
  | inl e => Err (PathError "open" name e)
  | inr (_, Dir) => Err (PathError "read" name EISDIR)
  | inr (_, File data) => Ok data
  end.

(** The name of [k] as an entry of the directory [loc]. *)
Definition entry_name (loc k : list string) : option string :=
  match drop (length loc) k with
  | [name] => if decide (take (length loc) k = loc) then Some name else None
  | _ => None
  end.

Definition entries (m : tree) (loc : list string) : list FileInfo :=
  omap (λ kn, (λ name, info_of name kn.2) <$> entry_name loc kn.1)
       (map_to_list m).

Definition by_name (a b : FileInfo) : Prop := String.le (Name a) (Name b).

Global Instance by_name_dec : RelDecision by_name.
Proof. intros a b. unfold by_name. apply _. Defined.

(** [ioutil.ReadDir]: the entries of the directory, sorted by file name. *)
Definition ReadDir (dirname : string) (fs : FS) : result (list FileInfo) :=
  match locate fs dirname with
  | inl e => Err (PathError "open" dirname e)
  | inr (_, File _) => Err (PathError "readdirent" dirname ENOTDIR)
  | inr (loc, Dir) => Ok (merge_sort by_name (entries (nodes fs) loc))
  end.

(** Everything at or below [loc] is taken out of the tree. *)
Definition prune (loc : list string) (m : tree) : tree :=
  filter (λ kn, ¬ loc `prefix_of` kn.1) m.

Definition subtree (loc : list string) (m : tree) : tree :=
  filter (λ kn, loc `prefix_of` kn.1) m.

Definition graft (old new : list string) (m : tree) : tree :=
  list_to_map ((λ kn, (new ++ drop (length old) kn.1, kn.2))
                 <$> map_to_list (subtree old m))
  ∪ prune new (prune old m).

(** What Go and the kernel refuse of the two paths of a [rename]. *)
Definition refused2 (oldpath newpath : string) : option errno :=
  if has_nul oldpath || has_nul newpath then Some EINVAL
  else match refused oldpath with
       | Some e => Some e
       | None => refused newpath
       end.

(** [os.Rename].  Go refuses an existing directory as the target before
    it asks the kernel; the kernel replaces an existing regular file. *)
Definition Rename (oldpath newpath : string) (fs : FS) : option error * FS :=
  let fail e := (Some (LinkError "rename" oldpath newpath e), fs) in
  match refused2 oldpath newpath with
  | Some e => fail e
  | None =>
      match locate fs oldpath, resolve fs newpath with
      | inl e, _ => fail e
      | _, None => fail ENOENT
      | inr (old, n), Some new =>
          match nodes fs !! new, n with
          | Some Dir, _ => if decide (new = old) then (None, fs) else fail EEXIST
          | Some (File _), Dir => fail ENOTDIR
          | None, Dir =>
              match parent_dir (nodes fs) new with
              | Some e => fail e
              | None =>
                  if decide (old `prefix_of` new) then fail EINVAL
                  else if name_ok (base new)
                  then (None, mkFS (cwd fs) (graft old new (nodes fs)))
                  else fail ENAMETOOLONG
              end
          | _, File data =>
              match parent_dir (nodes fs) new with
              | Some e => fail e
              | None =>
                  if name_ok (base new)
                  then (None,
                        mkFS (cwd fs) (<[new := File data]> (delete old (nodes fs))))
                  else fail ENAMETOOLONG
              end
          end
      end
  end.

(** The last element of a path. *)
Definition final_element (path : string) : string :=
  List.last (filepath.split path) "".

(** [RemoveAll] refuses a path whose final element is [.], as [rmdir]
    does: the path [.] itself, or one that ends in [/.]. *)
Definition endsWithDot (path : string) : bool :=
  bool_decide (final_element path = ".").

(** What is left of a directory that is emptied but cannot be removed
    itself. *)
Definition emptied (loc : list string) (m : tree) : tree :=
  <[loc := Dir]> (prune loc m).

(** [os.RemoveAll]: remove [path] and everything below it; a path that
    does not exist is not an error.  The kernel refuses to remove the root
    of the file system and a directory named through a final [..]: what
    they hold is gone by then, and the error of the last [rmdir] is
    returned. *)
Definition RemoveAll (path : string) (fs : FS) : option error * FS :=
  if decide (path = "") then (None, fs)
  else if endsWithDot path then (Some (PathError "RemoveAll" path EINVAL), fs)
  else
    match locate fs path with
    | inl ENOENT => (None, fs)
    | inl e => (Some (PathError "unlinkat" path e), fs)
    | inr (loc, Dir) =>
        if decide (loc = []) then
          (Some (PathError "unlinkat" path EBUSY),
           mkFS (cwd fs) (emptied loc (nodes fs)))
        else if decide (final_element path = "..") then
          (Some (PathError "unlinkat" path ENOTEMPTY),
           mkFS (cwd fs) (emptied loc (nodes fs)))
        else (None, mkFS (cwd fs) (prune loc (nodes fs)))
    | inr (loc, File _) => (None, mkFS (cwd fs) (prune loc (nodes fs)))
    end.

End os.

(** ** encoding/json

    The driver is generic in the values it stores ([interface{}]); what it
    needs of a value type is [json.MarshalIndent] and [json.Unmarshal].
    [Unmarshal data v] decodes into the target [v] and returns the target
    as the call leaves it. *)

Class JSON (V : Type) := {
  MarshalIndent : V → string → string → result string;
  Unmarshal : string → V → option error * V
}.

Definition tab : string := String "009"%char "".
Definition newline : string := String "010"%char "".

(** ** The driver *)

(** The locks of a driver: its own [mu], which guards the registry, and the
    [*sync.Mutex] objects the registry hands out, known by their address. *)
Inductive lock :=
  | RegistryMu
  | Mutex (addr : nat).

Inductive call :=
  | CallStat (path : string)
  | CallMkdirAll (path : string)
  | CallWriteFile (name data : string)
  | CallRename (oldpath newpath : string)
  | CallReadDir (dirname : string)
  | CallReadFile (name : string)
  | CallRemoveAll (path : string).

(** What a run leaves behind, in order: lock operations, calls into the
    file system and the debug lines handed to the logger. *)
Inductive event :=
  | EvLock (l : lock)
  | EvUnlock (l : lock)
  | EvCall (c : call)
  | EvDebug (msg : string).

Global Instance lock_eq_dec : EqDecision lock.
Proof. solve_decision. Defined.
Global Instance call_eq_dec : EqDecision call.
Proof. solve_decision. Defined.
Global Instance event_eq_dec : EqDecision event.
Proof. solve_decision. Defined.

(** [Driver]: the registry [mutexes] and the root directory [dir].  The
    field [mu] is the lock [RegistryMu]; the logger shows as the [EvDebug]
    events. *)
Record Driver := mkDriver {
  mutexes : gmap string nat;
  dir : string
}.

(** The state a method of [*Driver] runs in: the receiver, the address of
    the next [sync.Mutex] to be allocated, the disk and the events so
    far. *)
Record state := mkState {
  self : Driver;
  next_mutex : nat;
  disk : os.FS;
  trace : list event
}.

Definition M (A : Type) : Type := state → A * state.

Definition ret {A} (a : A) : M A := λ s, (a, s).
Definition bind {A B} (m : M A) (k : A → M B) : M B :=
  λ s, let (a, s') := m s in k a s'.

Global Instance M_ret : MRet M := @ret.
Global Instance M_bind : MBind M := λ A B k m, bind m k.

Definition emit (e : event) : M unit :=
  λ s, (tt, mkState (self s) (next_mutex s) (disk s) (trace s ++ [e])).

Definition receiver : M Driver := λ s, (self s, s).

(** A call that inspects the disk, and one that changes it. *)
Definition query {A} (c : call) (f : os.FS → A) : M A :=
  λ s, (f (disk s),
        mkState (self s) (next_mutex s) (disk s) (trace s ++ [EvCall c])).

Definition update {A} (c : call) (f : os.FS → A * os.FS) : M A :=
  λ s, let (a, fs) := f (disk s) in
       (a, mkState (self s) (next_mutex s) fs (trace s ++ [EvCall c])).

Definition os_Stat (path : string) : M (result os.FileInfo) :=
  query (CallStat path) (os.Stat path).
Definition os_MkdirAll (path : string) : M (option error) :=
  update (CallMkdirAll path) (os.MkdirAll path).
Definition ioutil_WriteFile (name data : string) : M (option error) :=
  update (CallWriteFile name data) (os.WriteFile name data).
Definition os_Rename (oldpath newpath : string) : M (option error) :=
  update (CallRename oldpath newpath) (os.Rename oldpath newpath).
Definition ioutil_ReadDir (dirname : string) : M (result (list os.FileInfo)) :=
  query (CallReadDir dirname) (os.ReadDir dirname).
Definition ioutil_ReadFile (name : string) : M (result string) :=
  query (CallReadFile name) (os.ReadFile name).
Definition os_RemoveAll (path : string) : M (option error) :=
  update (CallRemoveAll path) (os.RemoveAll path).

Definition Lock (l : lock) : M unit := emit (EvLock l).
Definition Unlock (l : lock) : M unit := emit (EvUnlock l).

(** [defer final]: [final] runs when [body] returns, whatever it returns. *)
Definition defer {A} (final : M unit) (body : M A) : M A :=
  a ← body; final;; ret a.

(** [&sync.Mutex{}]: a mutex at an address not in use. *)
Definition new_mutex : M nat :=
  λ s, (next_mutex s, mkState (self s) (S (next_mutex s)) (disk s) (trace s)).

Definition store_mutex (collection : string) (m : nat) : M unit :=
  λ s, (tt, mkState (mkDriver (<[collection := m]> (mutexes (self s)))
                              (dir (self s)))
                    (next_mutex s) (disk s) (trace s)).

(** [New]: the driver for the cleaned root, which is created unless it is
    there already.  The driver is returned in either case, with the error
    of [os.MkdirAll] when there is one. *)
Definition New (dir : string) (fs : os.FS) : option error * state :=
  let dir := filepath.Clean dir in
  let driver := mkDriver ∅ dir in
  (r ← os_Stat dir;
   match r with
   | Ok _ =>
       emit (EvDebug ("Using '" +:+ dir +:+ "' (database already exist)" +:+ newline));;
       ret None
   | Err _ =>
       emit (EvDebug ("Creating database '" +:+ dir +:+ "'..." +:+ newline));;
       os_MkdirAll dir
   end) (mkState driver 0 fs []).

Definition stat (path : string) : M (result os.FileInfo) :=
  r ← os_Stat path;
  match r with
  | Err err =>
      if os.IsNotExist err then os_Stat (path +:+ ".json") else ret r
  | Ok _ => ret r
  end.

Definition getOrCreateMutex (collection : string) : M nat :=
  Lock RegistryMu;;
  defer (Unlock RegistryMu)
    (d ← receiver;
     match mutexes d !! collection with
     | Some m => ret m
     | None => m ← new_mutex; store_mutex collection m;; ret m
     end).

Definition Write {V} `{JSON V} (collection resources : string) (v : V)
    : M (option error) :=
  if decide (collection = "") then
    ret (Some (Errorf "collection name cannot be empty"))
  else if decide (resources = "") then
    ret (Some (Errorf "missing resource - unable to save record (no name)"))
  else
    mutex ← getOrCreateMutex collection;
    Lock (Mutex mutex);;
    defer (Unlock (Mutex mutex))
      (d ← receiver;
       let dir := filepath.Join [dir d; collection] in
       let fnlPath := filepath.Join [dir; resources +:+ ".json"] in
       let tmpPath := fnlPath +:+ ".tmp" in
       err ← os_MkdirAll dir;
       match err with
       | Some _ => ret err
       | None =>
           match MarshalIndent v "" tab with
           | Err err => ret (Some err)
           | Ok b =>
               let b := b +:+ newline in
               err ← ioutil_WriteFile tmpPath b;
               match err with
               | Some _ => ret err
               | None => os_Rename tmpPath fnlPath
               end
           end
       end).

(** The loop of [ReadAll] over the directory entries. *)
Fixpoint read_records (dir : string) (files : list os.FileInfo)
    (records : list string) : M (result (list string)) :=
  match files with
  | [] => ret (Ok records)
  | file :: files' =>
      r ← ioutil_ReadFile (filepath.Join [dir; os.Name file]);
      match r with
      | Err err => ret (Err err)
      | Ok data => read_records dir files' (records ++ [data])
      end
  end.

Definition ReadAll (collection : string) : M (result (list string)) :=
  if decide (collection = "") then
    ret (Err (Errorf "collection name cannot be empty"))
  else
    d ← receiver;
    let dir := filepath.Join [dir d; collection] in
    r ← stat dir;
    match r with
    | Err err => ret (Err err)
    | Ok _ =>
        r ← ioutil_ReadDir dir;
        match r with
        | Err err => ret (Err err)
        | Ok files => read_records dir files []
        end
    end.

Definition Delete (collection resource : string) : M (option error) :=
  let path := filepath.Join [collection; resource] in
  mutex ← getOrCreateMutex collection;
  Lock (Mutex mutex);;
  defer (Unlock (Mutex mutex))
    (d ← receiver;
     let dir := filepath.Join [dir d; path] in
     r ← stat dir;
     match r with
     | Err _ =>
         ret (Some (Errorf ("unable to find file or dir named " +:+ path)))
     | Ok fi =>
         if os.IsDir fi then os_RemoveAll dir
         else if os.IsRegular fi then os_RemoveAll (dir +:+ ".json")
         else ret None
     end).

Definition Read {V} `{JSON V} (collection resource : string) (v : V)
    : M (option error * V) :=
  if decide (collection = "") then
    ret (Some (Errorf "collection name cannot be empty"), v)
  else if decide (resource = "") then
    ret (Some (Errorf "cissing resource - unable to read record (no name)"), v)
  else
    d ← receiver;
    let record := filepath.Join [dir d; collection; resource +:+ ".json"] in
    r ← stat record;
    match r with
    | Err err => ret (Some err, v)
    | Ok _ =>
        r ← ioutil_ReadFile (record +:+ ".json");
        match r with
        | Err err => ret (Some err, v)
        | Ok b => ret (Unmarshal b v)
        end
    end.

(** ** A value type: Go's [int]

    [json.MarshalIndent] prints an [int] in decimal, without indentation;
    [json.Unmarshal] accepts a JSON integer literal within the 64-bit range
    between optional white space, leaves the target alone on [null], and
    fails on everything else. *)

Module GoInt.

Definition is_space (c : ascii) : bool :=
  bool_decide (c = " " ∨ c = "009" ∨ c = "010" ∨ c = "013")%char.

Fixpoint trim_left (s : string) : string :=
  match s with
  | String c s' => if is_space c then trim_left s' else s
  | "" => ""
  end.

Definition trim (s : string) : string :=
  String.rev (trim_left (String.rev (trim_left s))).

Fixpoint digits (s : string) (acc : Z) : option Z :=
  match s with
  | "" => Some acc
  | String c s' => d ← Ascii.is_nat c; digits s' (10 * acc + Z.of_nat d)%Z
  end.

Definition literal (s : string) : option Z :=
  let (negative, body) :=
    match s with
    | String "-"%char s' => (true, s')
    | _ => (false, s)
    end in
  match body with
  | "" => None
  | String "0"%char (String _ _) => None
  | _ => n ← digits body 0; Some (if negative : bool then (- n)%Z else n)
  end.

Definition marshal (n : Z) : string :=
  NilZero.string_of_int (Z.to_int n).

Definition unmarshal (data : string) (v : Z) : option error * Z :=
  let text := trim data in
  if decide (text = "null") then (None, v)
  else match literal text with
       | Some n =>
           if decide (- 2 ^ 63 ≤ n < 2 ^ 63)%Z then (None, n)
           else (Some (JSONError "cannot unmarshal number into Go value of type int"), v)
       | None => (Some (JSONError "cannot unmarshal into Go value of type int"), v)
       end.

Global Instance json : JSON Z := {|
  MarshalIndent n _ _ := Ok (marshal n);
  Unmarshal := unmarshal
|}.

End GoInt.

(** ** A value type that cannot be encoded: a Go channel

    [json.MarshalIndent] refuses a channel with an unsupported-type error;
    [json.Unmarshal] into a channel leaves the target alone on [null] and
    fails on everything else. *)

Module GoChan.

Definition t : Type := unit.

Global Instance json : JSON t := {|
  MarshalIndent _ _ _ := Err (JSONError "json: unsupported type: chan int");
  Unmarshal data v :=
    if decide (GoInt.trim data = "null") then (None, v)
    else (Some (JSONError "cannot unmarshal into Go value of type chan int"), v)
|}.

End GoChan.

(** ** A small disk to run the driver on *)

Module Demo.

Definition home : list string := ["home"; "app"].

(** The directories [/], [/home] and [/home/app], the last one current. *)
Definition fresh_disk : os.FS :=
  os.mkFS home (list_to_map [([], os.Dir); (["home"], os.Dir); (home, os.Dir)]).

(** The state after [New("db")]. *)
Definition booted : state := (New "db" fresh_disk).2.

Definition run {A} (m : M A) (s : state) : state := (m s).2.
Definition value {A} (m : M A) (s : state) : A := (m s).1.

(** The files and directories of a disk, as a list. *)
Definition listing (fs : os.FS) : list (list string * os.node) :=
  merge_sort (λ a b, bool_decide (length a.1 ≤ length b.1)) (map_to_list (os.nodes fs)).

(** The state after [John] and [Mary] were written into [users]. *)
Definition two_users : state :=
  run (Write "users" "Mary" 25%Z) (run (Write "users" "John" 30%Z) booted).

(** A resource name of 250 bytes: its file name has 255 bytes, the name of
    its temporary file 259. *)
Definition long_name : string :=
  String.string_of_list_ascii (replicate 250 "a"%char).

End Demo.


(** ** Vocabulary of the properties *)

Definition is_lock_event (e : event) : bool :=
  match e with
  | EvLock _ | EvUnlock _ => true
  | _ => false
  end.

(** A computation that touches no lock: all it adds to the trace are other
    events. *)
Definition lock_free {A} (m : M A) : Prop :=
  ∀ s, ∃ evs, trace (m s).2 = trace s ++ evs ∧
              Forall (λ e, is_lock_event e = false) evs.

(** A computation that keeps a property of the state. *)
Definition preserves {A} (P : state → Prop) (m : M A) : Prop :=
  ∀ s, P s → P (m s).2.

(** The calls a client may make on a driver. *)
Inductive request (V : Type) :=
  | ReqWrite (collection resource : string) (v : V)
  | ReqRead (collection resource : string) (v : V)
  | ReqReadAll (collection : string)
  | ReqDelete (collection resource : string)
  | ReqAcquire (collection : string).
Arguments ReqWrite {V} _ _ _.
Arguments ReqRead {V} _ _ _.
Arguments ReqReadAll {V} _.
Arguments ReqDelete {V} _ _.
Arguments ReqAcquire {V} _.

Definition serve {V} `{JSON V} (r : request V) (s : state) : state :=
  match r with
  | ReqWrite c r v => (Write c r v s).2
  | ReqRead c r v => (Read c r v s).2
  | ReqReadAll c => (ReadAll c s).2
  | ReqDelete c r => (Delete c r s).2
  | ReqAcquire c => (getOrCreateMutex c s).2
  end.

(** Every lock of the registry has been allocated. *)
Definition registry_ok (s : state) : Prop :=
  map_Forall (λ _ m, m < next_mutex s) (mutexes (self s)).

(** Every location above [loc] is a directory. *)
Definition ancestors_ok (m : os.tree) (loc : list string) : Prop :=
  ∀ k, k `prefix_of` loc → k ≠ loc → m !! k = Some os.Dir.

(** What [stat] finds on a disk, and the calls it makes to find it. *)
Definition probe (path : string) (fs : os.FS) : result os.FileInfo * list call :=
  match os.Stat path fs with
  | Err err =>
      if os.IsNotExist err
      then (os.Stat (path +:+ ".json") fs,
            [CallStat path; CallStat (path +:+ ".json")])
      else (Err err, [CallStat path])
  | Ok fi => (Ok fi, [CallStat path])
  end.

Definition log_events (evs : list event) (s : state) : state :=
  mkState (self s) (next_mutex s) (disk s) (trace s ++ evs).

(** A computation that only looks: the state afterwards is the state
    before with more events in the trace. *)
Definition reads_only {A} (m : M A) : Prop :=
  ∀ s, ∃ evs, (m s).2 = log_events evs s.

(** No two collections share a lock. *)
Definition registry_inj (s : state) : Prop :=
  ∀ c1 c2 m, mutexes (self s) !! c1 = Some m → mutexes (self s) !! c2 = Some m →
             c1 = c2.

(** Writing a list of records into one collection, in order; the errors
    are collected. *)
Definition write_all {V} `{JSON V} (C : string) (records : list (string * V))
    (s : state) : list (option error) * state :=
  foldl (λ acc rv, let r := Write C rv.1 rv.2 acc.2 in (acc.1 ++ [r.1], r.2))
        ([], s) records.

(** The directory of collection [C] below [root] holds exactly the
    regular files of [files] (name to content), each named after a resource,
    and the driver's root leads to [root], a directory. *)
Definition collection_is (root : list string) (C : string)
    (files : gmap string string) (s : state) : Prop :=
  os.resolve (disk s) (dir (self s)) = Some root ∧
  os.walk (os.nodes (disk s)) [] root = inr os.Dir ∧
  (os.nodes (disk s) !! (root ++ [C]) = None ∨
   os.nodes (disk s) !! (root ++ [C]) = Some os.Dir) ∧
  (files ≠ ∅ → os.nodes (disk s) !! (root ++ [C]) = Some os.Dir) ∧
  (∀ name, os.nodes (disk s) !! ((root ++ [C]) ++ [name])
           = os.File <$> files !! name) ∧
  (∀ name, is_Some (files !! name) →
           ∃ r, name = r +:+ ".json" ∧ filepath.sep_free r).

Definition holds_lock (C : string) (m : nat) (s : state) : Prop :=
  mutexes (self s) !! C = Some m.

Definition log (evs : list event) (s : state) : state :=
  mkState (self s) (next_mutex s) (disk s) (trace s ++ evs).

(** * Properties *)

Example Clean_examples :
  filepath.Clean "./" = "." ∧ filepath.Clean "a//b/./c/.." = "a/b" ∧
  filepath.Clean "/../a" = "/a" ∧ filepath.Clean "../../a/../b" = "../../b" ∧
  filepath.Clean "" = "." ∧ filepath.Clean "/" = "/" ∧
  filepath.Join ["."; "users"; "John.json"] = "users/John.json" ∧
  filepath.Join [""; ""] = "" ∧ filepath.Join ["db"; ""] = "db".
Proof. repeat split; reflexivity. Qed.

(** ** Strings and path elements *)

Section path_elements.
Import filepath.

Lemma str_app_cons c (s t : string) : String c s +:+ t = String c (s +:+ t).
Proof. reflexivity. Qed.

Lemma str_app_nil_r (s : string) : s +:+ "" = s.
Proof. induction s as [|c s IH]; [done|]. by rewrite str_app_cons, IH. Qed.

Lemma str_app_assoc (s t u : string) : (s +:+ t) +:+ u = s +:+ t +:+ u.
Proof. induction s as [|c s IH]; [done|]. by rewrite !str_app_cons, IH. Qed.

Lemma str_app_eq_nil (s t : string) : s +:+ t = "" → s = "" ∧ t = "".
Proof. destruct s; [done|]. by rewrite str_app_cons. Qed.

Lemma split_not_nil s : split s ≠ [].
Proof.
  destruct s as [|c s]; simpl; [done|].
  case_decide; [done|]. by destruct (split s).
Qed.

Lemma split_sep_free s : sep_free s → split s = [s].
Proof.
  induction s as [|c s IH]; simpl; [done|].
  case_decide; [done|]. intros Hs. by rewrite IH.
Qed.

Lemma split_app s t : split (s +:+ String Separator t) = split s ++ split t.
Proof.
  induction s as [|c s IH].
  - change ("" +:+ ?x) with x. simpl. done.
  - rewrite str_app_cons. simpl. case_decide; [by rewrite IH|].
    rewrite IH. pose proof (split_not_nil s). by destruct (split s).
Qed.

Lemma split_snoc s n :
  sep_free n → split (s +:+ "/" +:+ n) = split s ++ [n].
Proof.
  intros Hn. change ("/" +:+ n) with (String Separator n).
  by rewrite split_app, (split_sep_free n).
Qed.

Lemma split_all_sep_free s : Forall (λ c, sep_free c) (split s).
Proof.
  induction s as [|c s IH]; simpl.
  - by constructor.
  - case_decide; [by constructor|].
    pose proof (split_not_nil s). destruct (split s) as [|x xs]; [done|].
    inversion_clear IH. constructor; [|done]. simpl. by rewrite decide_False.
Qed.

Lemma split_join l :
  l ≠ [] → Forall (λ c, sep_free c) l → split (join_sep l) = l.
Proof.
  induction l as [|x l IH]; [done|]. intros _ Hl. inversion_clear Hl as [|?? Hx Hl'].
  destruct l as [|y l]; simpl.
  - by apply split_sep_free.
  - change ("/" +:+ ?t) with (String Separator t).
    rewrite split_app, (split_sep_free x) by done. simpl in IH. by rewrite IH.
Qed.

Lemma join_snoc l n : l ≠ [] → join_sep (l ++ [n]) = join_sep l +:+ "/" +:+ n.
Proof.
  induction l as [|x l IH]; [done|]. intros _.
  destruct l as [|y l]; [done|].
  change (join_sep ((x :: y :: l) ++ [n])) with (x +:+ "/" +:+ join_sep ((y :: l) ++ [n])).
  rewrite IH by done. change (join_sep (x :: y :: l)) with (x +:+ "/" +:+ join_sep (y :: l)).
  by rewrite !str_app_assoc.
Qed.

Lemma str_length_app (s t : string) :
  String.length (s +:+ t) = String.length s + String.length t.
Proof. induction s as [|c s IH]; [done|]. rewrite str_app_cons. simpl. by rewrite IH. Qed.

Lemma str_app_cancel_r (s t u : string) : s +:+ u = t +:+ u → s = t.
Proof.
  revert t. induction s as [|c s IH]; intros [|c' t] E; [done|..].
  - apply (f_equal String.length) in E. rewrite !str_length_app in E. simpl in E. lia.
  - apply (f_equal String.length) in E. rewrite !str_length_app in E. simpl in E. lia.
  - rewrite !str_app_cons in E. injection E as -> E. f_equal. by apply IH.
Qed.

Lemma list_ascii_app (s t : string) :
  String.list_ascii_of_string (s +:+ t)
  = String.list_ascii_of_string s ++ String.list_ascii_of_string t.
Proof. induction s as [|c s IH]; [done|]. rewrite str_app_cons. simpl. by rewrite IH. Qed.

(** A file name of a resource is never the name of a temporary file. *)
Lemma json_ne_tmp (x y : string) : x +:+ ".json" ≠ (y +:+ ".json") +:+ ".tmp".
Proof.
  intros E. apply (f_equal String.list_ascii_of_string) in E.
  rewrite !list_ascii_app in E.
  change (String.list_ascii_of_string ".json")
    with (String.list_ascii_of_string ".jso" ++ ["n"%char]) in E at 1.
  change (String.list_ascii_of_string ".tmp")
    with (String.list_ascii_of_string ".tm" ++ ["p"%char]) in E.
  rewrite !app_assoc in E. by apply app_inj_tail in E as [_ ?].
Qed.

Lemma is_name_spec n :
  is_name n ↔ n ≠ "" ∧ n ≠ "." ∧ n ≠ ".." ∧ sep_free n.
Proof.
  unfold is_name. rewrite andb_True, bool_decide_spec. tauto.
Qed.

Lemma sep_free_app s t : sep_free (s +:+ t) = sep_free s && sep_free t.
Proof.
  induction s as [|c s IH]; [done|]. rewrite str_app_cons. simpl.
  by case_decide.
Qed.

Lemma is_name_suffix n x : is_name n → sep_free x → is_name (n +:+ x).
Proof.
  intros (Hne & Hdot & Hdd & Hfree)%is_name_spec Hx. apply is_name_spec.
  rewrite sep_free_app. split_and!.
  - by intros [? _]%str_app_eq_nil.
  - destruct n as [|a [|b n]]; [done| |done].
    rewrite str_app_cons. destruct x; [by rewrite str_app_nil_r|done].
  - destruct n as [|a [|b [|c n]]]; [done| | |done].
    + rewrite str_app_cons. destruct x as [|d [|e x]]; [done| |done].
      change ("" +:+ ?y) with y. intros [= -> ->]. done.
    + rewrite !str_app_cons. destruct x; [by rewrite str_app_nil_r|done].
  - done.
  - done.
Qed.

Lemma is_name_json n : sep_free n → is_name (n +:+ ".json").
Proof.
  intros Hn. apply is_name_spec. rewrite sep_free_app.
  repeat split.
  - intros [_ ?]%str_app_eq_nil. done.
  - destruct n as [|? [|? ?]]; done.
  - destruct n as [|? [|? [|? ?]]]; done.
  - by rewrite andb_True.
Qed.

End path_elements.

(** ** [Clean] and [Join] *)

Section clean.
Import filepath.

Lemma rooted_app s t : s ≠ "" → rooted (s +:+ t) = rooted s.
Proof. by destruct s. Qed.

Lemma clean_step_blank r out c : c = "" ∨ c = "." → clean_step r out c = out.
Proof. intros Hc. unfold clean_step. by rewrite decide_True. Qed.

Lemma clean_step_name r out n : is_name n → clean_step r out n = n :: out.
Proof.
  intros (? & ? & ? & _)%is_name_spec. unfold clean_step.
  rewrite decide_False, decide_False; [done..|]. intros [|]; done.
Qed.

Lemma element_cases c :
  sep_free c → c = "" ∨ c = "." ∨ c = ".." ∨ is_name c.
Proof.
  intros Hc. destruct (decide (c = "")) as [|]; [by left|].
  destruct (decide (c = ".")) as [|]; [by right; left|].
  destruct (decide (c = "..")) as [|]; [by right; right; left|].
  right; right; right. by apply is_name_spec.
Qed.

(** The output of [Clean] is a run of names on top of a run of [..],
    and there is no [..] at all in a rooted path. *)
Lemma clean_stack_shape r comps out :
  Forall (λ c, sep_free c) comps →
  (∃ names k, out = names ++ replicate k ".." ∧
              Forall (λ n, is_name n) names ∧ (r = true → k = 0)) →
  ∃ names k, foldl (clean_step r) out comps = names ++ replicate k ".." ∧
             Forall (λ n, is_name n) names ∧ (r = true → k = 0).
Proof.
  intros Hcomps. revert out.
  induction Hcomps as [|c comps Hc _ IH]; intros out Hout; [done|].
  simpl. apply IH. destruct Hout as (names & k & -> & Hnames & Hk).
  destruct (element_cases c Hc) as [->|[->|[->|Hn]]].
  - rewrite clean_step_blank by auto. eauto.
  - rewrite clean_step_blank by auto. eauto.
  - unfold clean_step. rewrite decide_False by (intros [|]; done).
    rewrite decide_True by done.
    destruct names as [|top rest]; simpl.
    + destruct k as [|k]; simpl.
      * destruct r.
        -- by exists [], 0.
        -- by exists [], 1.
      * exists [], (S (S k)). split_and!; [done..|].
        intros ->. by specialize (Hk eq_refl).
    + inversion_clear Hnames as [|?? Htop Hrest].
      apply is_name_spec in Htop as (_ & _ & ? & _).
      rewrite decide_False by done. eauto.
  - rewrite clean_step_name by done. exists (c :: names), k.
    split_and!; [done| by constructor | done].
Qed.

Lemma clean_elems_shape p :
  ∃ names k, clean_elems p = replicate k ".." ++ names ∧
             Forall (λ n, is_name n) names ∧ (rooted p = true → k = 0).
Proof.
  destruct (clean_stack_shape (rooted p) (split p) [])
    as (names & k & Hst & Hnames & Hk).
  { apply split_all_sep_free. }
  { by exists [], 0. }
  exists (rev names), k. unfold clean_elems. rewrite Hst, rev_app_distr.
  split_and!; [|by apply Forall_rev|done].
  f_equal. clear. induction k as [|k IH]; [done|].
  simpl. rewrite IH. clear. induction k as [|k IH]; [done|]. simpl. by f_equal.
Qed.

Lemma clean_elems_sep_free p : Forall (λ c, sep_free c) (clean_elems p).
Proof.
  destruct (clean_elems_shape p) as (names & k & -> & Hnames & _).
  apply Forall_app. split.
  - by apply Forall_replicate.
  - eapply Forall_impl; [done|]. by intros n (_ & _ & _ & ?)%is_name_spec.
Qed.

Lemma clean_elems_snoc s n :
  s ≠ "" → is_name n → clean_elems (s +:+ "/" +:+ n) = clean_elems s ++ [n].
Proof.
  intros Hs Hn. unfold clean_elems.
  pose proof Hn as (_ & _ & _ & ?)%is_name_spec.
  rewrite rooted_app, split_snoc, foldl_snoc, clean_step_name by done.
  done.
Qed.

Lemma Clean_nonempty p :
  clean_elems p ≠ [] →
  Clean p = (if rooted p then "/" else "") +:+ join_sep (clean_elems p).
Proof.
  intros He. unfold Clean. destruct (rooted p); [done|].
  by destruct (clean_elems p).
Qed.

Lemma Clean_not_empty p : Clean p ≠ "".
Proof.
  unfold Clean. destruct (rooted p); [done|].
  destruct (clean_elems_shape p) as (names & k & -> & Hnames & _).
  destruct k as [|k]; simpl.
  - destruct names as [|n names]; [done|].
    inversion_clear Hnames as [|?? Hn _]. apply is_name_spec in Hn as (? & _).
    destruct names; [done|]. by destruct n.
  - by destruct (replicate k ".." ++ names).
Qed.

Lemma join_snoc_suffix l n x :
  join_sep (l ++ [n]) +:+ x = join_sep (l ++ [n +:+ x]).
Proof.
  induction l as [|y l IH]; [done|].
  destruct l as [|z l]; simpl in *.
  - by rewrite !str_app_assoc.
  - by rewrite <-IH, !str_app_assoc.
Qed.

(** A suffix appended to a cleaned path whose last element is a name
    lands in that name. *)
Lemma Clean_suffix s n x :
  s ≠ "" → is_name n → is_name (n +:+ x) →
  Clean (s +:+ "/" +:+ n) +:+ x = Clean (s +:+ "/" +:+ n +:+ x).
Proof.
  intros Hs Hn Hnx.
  rewrite !Clean_nonempty, !clean_elems_snoc, !rooted_app by
    (rewrite ?clean_elems_snoc by done; done || by destruct (clean_elems s)).
  by rewrite str_app_assoc, join_snoc_suffix.
Qed.

Lemma clean_fold_dotdots k j :
  foldl (clean_step false) (replicate j "..") (replicate k "..")
  = replicate (k + j) "..".
Proof.
  revert j. induction k as [|k IH]; intros j; [done|].
  simpl. replace (clean_step false (replicate j "..") "..")
    with (replicate (S j) "..") by by destruct j.
  by rewrite IH, Nat.add_succ_r.
Qed.

Lemma clean_fold_names r names out :
  Forall (λ n, is_name n) names →
  foldl (clean_step r) out names = rev names ++ out.
Proof.
  intros Hn. revert out. induction Hn as [|n names Hn _ IH]; intros out; [done|].
  simpl. by rewrite clean_step_name, IH, <-app_assoc by done.
Qed.

Lemma clean_fold_normal r k names :
  (r = true → k = 0) → Forall (λ n, is_name n) names →
  foldl (clean_step r) [] (replicate k ".." ++ names)
  = rev (replicate k ".." ++ names).
Proof.
  intros Hk Hn. rewrite foldl_app, rev_app_distr.
  assert (foldl (clean_step r) [] (replicate k "..") = rev (replicate k ".."))
    as ->; [|by apply clean_fold_names].
  assert (rev (replicate k "..") = replicate k (".." : string)) as ->.
  { clear. induction k as [|k IH]; [done|]. simpl. rewrite IH.
    clear. induction k as [|k IH]; [done|]. simpl. by f_equal. }
  destruct r.
  - by rewrite Hk.
  - pose proof (clean_fold_dotdots k 0) as Hd. simpl in Hd.
    by rewrite Hd, Nat.add_0_r.
Qed.

(** The elements of a cleaned path are those [Clean] wrote, behind at most
    two blank ones. *)
Lemma split_Clean p :
  ∃ blanks, split (Clean p) = blanks ++ clean_elems p ∧
            Forall (λ c, c = "" ∨ c = ".") blanks.
Proof.
  unfold Clean. pose proof (clean_elems_sep_free p) as Hfree.
  destruct (rooted p).
  - change ("/" +:+ ?x) with (String Separator x). simpl.
    destruct (clean_elems p) as [|e l] eqn:He.
    + exists [""; ""]. split; [done|]. repeat constructor; by left.
    + exists [""]. rewrite split_join by done. split; [done|].
      repeat constructor; by left.
  - destruct (clean_elems p) as [|e l] eqn:He.
    + exists ["."]. split; [done|]. repeat constructor; by right.
    + exists []. by rewrite split_join.
Qed.

Lemma rooted_Clean p : rooted (Clean p) = rooted p.
Proof.
  unfold Clean. destruct (rooted p) eqn:Hr; [done|].
  destruct (clean_elems_shape p) as (names & k & -> & Hnames & _).
  destruct k as [|k]; simpl.
  - destruct names as [|n names]; [done|].
    inversion_clear Hnames as [|?? Hn _].
    apply is_name_spec in Hn as (? & _ & _ & Hfree).
    assert (rooted n = false) as Hn.
    { destruct n as [|c n]; [done|]. simpl in *. by case_decide; [|rewrite bool_decide_false]. }
    destruct names; [done|]. by rewrite rooted_app.
  - by destruct (replicate k ".." ++ names).
Qed.

Lemma clean_blanks r blanks out comps :
  Forall (λ c, c = "" ∨ c = ".") blanks →
  foldl (clean_step r) out (blanks ++ comps) = foldl (clean_step r) out comps.
Proof.
  induction 1 as [|c blanks Hc _ IH]; [done|].
  simpl. by rewrite clean_step_blank.
Qed.

Lemma clean_elems_Clean p : clean_elems (Clean p) = clean_elems p.
Proof.
  unfold clean_elems at 1. rewrite rooted_Clean.
  destruct (split_Clean p) as (blanks & -> & Hblanks).
  rewrite clean_blanks by done.
  destruct (clean_elems_shape p) as (names & k & He & Hnames & Hk).
  by rewrite He, clean_fold_normal, rev_involutive.
Qed.

Lemma Clean_ext p q :
  rooted p = rooted q → clean_elems p = clean_elems q → Clean p = Clean q.
Proof. unfold Clean. by intros -> ->. Qed.

Lemma Clean_Clean_snoc p q :
  p ≠ "" → Clean (Clean p +:+ "/" +:+ q) = Clean (p +:+ "/" +:+ q).
Proof.
  intros Hp. pose proof (Clean_not_empty p) as HP.
  assert (clean_elems (Clean p +:+ "/" +:+ q) = clean_elems (p +:+ "/" +:+ q))
    as He.
  { unfold clean_elems. rewrite !rooted_app, rooted_Clean by done.
    change ("/" +:+ q) with (String Separator q).
    rewrite !split_app, !foldl_app. do 2 f_equal.
    pose proof (f_equal (@rev string) (clean_elems_Clean p)) as Hrev.
    unfold clean_elems in Hrev. by rewrite !rev_involutive, rooted_Clean in Hrev. }
  apply Clean_ext; [|done]. by rewrite !rooted_app, rooted_Clean.
Qed.

Lemma Join_cons_empty l : Join ("" :: l) = Join l.
Proof. done. Qed.

Lemma Join_2 a b : a ≠ "" → Join [a; b] = Clean (a +:+ "/" +:+ b).
Proof. intros Ha. simpl. by rewrite decide_False. Qed.

Lemma Join_3 a b c :
  a ≠ "" → Join [a; b; c] = Clean ((a +:+ "/" +:+ b) +:+ "/" +:+ c).
Proof. intros Ha. simpl. by rewrite decide_False, str_app_assoc. Qed.

Lemma Join_2_not_empty a b : b ≠ "" → Join [a; b] ≠ "".
Proof.
  intros Hb. simpl. case_decide; [|apply Clean_not_empty].
  rewrite decide_False by done. apply Clean_not_empty.
Qed.

(** [Write] joins in two steps what [Read] joins in one. *)
Lemma Join_Join d c x : d ≠ "" → Join [Join [d; c]; x] = Join [d; c; x].
Proof.
  intros Hd. rewrite (Join_2 d), Join_3 by done.
  rewrite Join_2 by apply Clean_not_empty.
  apply Clean_Clean_snoc. by destruct d.
Qed.

Lemma name_not_rooted n s : is_name n → rooted (n +:+ s) = false.
Proof.
  intros (? & _ & _ & Hfree)%is_name_spec.
  destruct n as [|c n]; [done|]. simpl in *.
  by case_decide; [|rewrite bool_decide_false].
Qed.

(** What [Delete] passes on for a collection and a resource. *)
Lemma Join_names c r : is_name c → is_name r → Join [c; r] = c +:+ "/" +:+ r.
Proof.
  intros Hc Hr. pose proof Hc as (? & _)%is_name_spec.
  rewrite Join_2 by done. unfold Clean.
  pose proof Hc as (_ & _ & _ & ?)%is_name_spec.
  pose proof Hr as (_ & _ & _ & ?)%is_name_spec.
  rewrite name_not_rooted by done. unfold clean_elems.
  rewrite name_not_rooted, split_snoc, split_sep_free by done.
  simpl. by rewrite !clean_step_name.
Qed.


End clean.

(** ** Where the driver's paths lead *)

Section resolution.
Import filepath.

Lemma resolve_step_blank loc c :
  c = "" ∨ c = "." → os.resolve_step loc c = loc.
Proof. intros Hc. unfold os.resolve_step. by rewrite decide_True. Qed.

Lemma resolve_step_name loc n : is_name n → os.resolve_step loc n = n :: loc.
Proof.
  intros (? & ? & ? & _)%is_name_spec. unfold os.resolve_step.
  rewrite decide_False, decide_False; [done..|]. intros [|]; done.
Qed.

Lemma resolve_step_push loc c :
  ¬ (c = "" ∨ c = ".") → c ≠ ".." → os.resolve_step loc c = c :: loc.
Proof. intros ??. unfold os.resolve_step. by rewrite decide_False, decide_False. Qed.

Lemma resolve_blanks blanks init comps :
  Forall (λ c, c = "" ∨ c = ".") blanks →
  foldl os.resolve_step init (blanks ++ comps) = foldl os.resolve_step init comps.
Proof.
  intros Hb. revert init. induction Hb as [|c blanks Hc _ IH]; intros init; [done|].
  simpl. by rewrite resolve_step_blank.
Qed.

(** Resolving what [Clean] wrote leads where resolving what it read
    leads. *)
Lemma resolve_clean_fold r comps out init :
  Forall (λ e, e ≠ "" ∧ e ≠ ".") out → (r = true → init = []) →
  foldl os.resolve_step init (rev (foldl (clean_step r) out comps))
  = foldl os.resolve_step (foldl os.resolve_step init (rev out)) comps.
Proof.
  intros Hout Hr. revert out Hout.
  induction comps as [|c comps IH]; intros out Hout; [done|].
  simpl.
  destruct (decide (c = "" ∨ c = ".")) as [|Hc].
  { rewrite clean_step_blank, resolve_step_blank by done. by apply IH. }
  destruct (decide (c = "..")) as [->|Hdd].
  - change (os.resolve_step ?l "..") with (tail l).
    destruct out as [|top rest].
    + destruct r; simpl.
      * rewrite IH by done. simpl. by rewrite Hr.
      * rewrite IH by (repeat constructor; done). done.
    + inversion Hout as [|?? [??] Hrest]; subst.
      unfold clean_step. simpl. case_decide as Htop.
      * rewrite IH by (constructor; done). simpl. by rewrite foldl_snoc.
      * rewrite IH by done. simpl. rewrite foldl_snoc.
        rewrite resolve_step_push; [done| |done]. intros [|]; done.
  - assert (clean_step r out c = c :: out) as ->.
    { unfold clean_step. by rewrite decide_False, decide_False. }
    rewrite IH by (constructor; [tauto|done]). simpl.
    by rewrite foldl_snoc, !resolve_step_push.
Qed.

Lemma resolve_Clean fs p : p ≠ "" → os.resolve fs (Clean p) = os.resolve fs p.
Proof.
  intros Hp. unfold os.resolve.
  rewrite decide_False, decide_False, rooted_Clean by (done || apply Clean_not_empty).
  do 2 f_equal. destruct (split_Clean p) as (blanks & -> & Hblanks).
  rewrite resolve_blanks by done. unfold clean_elems.
  rewrite resolve_clean_fold; [done..|]. by intros ->.
Qed.

Lemma resolve_snoc fs s n loc :
  os.resolve fs s = Some loc → is_name n →
  os.resolve fs (s +:+ "/" +:+ n) = Some (loc ++ [n]).
Proof.
  unfold os.resolve. intros Hs Hn.
  pose proof Hn as (_ & _ & _ & ?)%is_name_spec.
  destruct (decide (s = "")) as [|Hne]; [done|].
  rewrite decide_False by (by destruct s).
  rewrite rooted_app, split_snoc, foldl_snoc, resolve_step_name by done.
  simpl. by simplify_eq.
Qed.

Lemma resolve_not_empty fs s loc : os.resolve fs s = Some loc → s ≠ "".
Proof. by intros ? ->. Qed.

(** The directory of a collection, as [Write] and [ReadAll] compute it. *)
Lemma resolve_Join_2 fs d c root :
  os.resolve fs d = Some root → is_name c →
  os.resolve fs (Join [d; c]) = Some (root ++ [c]).
Proof.
  intros Hd Hc. pose proof (resolve_not_empty _ _ _ Hd).
  rewrite Join_2, resolve_Clean by (done || by destruct d).
  by apply resolve_snoc.
Qed.

(** The file of a resource, as [Write] and [Read] compute it. *)
Lemma resolve_Join_3 fs d c x root :
  os.resolve fs d = Some root → is_name c → is_name x →
  os.resolve fs (Join [d; c; x]) = Some (root ++ [c; x]).
Proof.
  intros Hd Hc Hx. pose proof (resolve_not_empty _ _ _ Hd).
  rewrite Join_3, resolve_Clean by (done || by destruct d).
  rewrite (resolve_snoc _ _ _ (root ++ [c])), <-app_assoc; [done| |done].
  by apply resolve_snoc.
Qed.

(** A suffix on the joined path of a resource is a suffix on its file
    name. *)
Lemma Join_3_suffix d c n x :
  d ≠ "" → is_name n → is_name (n +:+ x) →
  Join [d; c; n] +:+ x = Join [d; c; n +:+ x].
Proof.
  intros Hd Hn Hnx. rewrite !Join_3 by done.
  apply Clean_suffix; [by destruct d|done..].
Qed.

(** A name joined to a path that ends in a name is appended to it. *)
Lemma Join_snoc_name d c x :
  d ≠ "" → is_name c → is_name x →
  Join [d; c; x] = Join [d; c] +:+ "/" +:+ x.
Proof.
  intros Hd Hc Hx. rewrite Join_3, Join_2 by done.
  set (s := d +:+ "/" +:+ c).
  assert (s ≠ "") as Hs by by destruct d.
  assert (clean_elems s = clean_elems d ++ [c]) as He by by apply clean_elems_snoc.
  assert (clean_elems s ≠ []) as Hne by (rewrite He; by destruct (clean_elems d)).
  rewrite (Clean_nonempty (s +:+ "/" +:+ x)), (Clean_nonempty s); [|done|].
  2:{ rewrite clean_elems_snoc by done. by destruct (clean_elems s). }
  by rewrite clean_elems_snoc, rooted_app, join_snoc, str_app_assoc.
Qed.

Lemma final_element_snoc s n :
  sep_free n → os.final_element (s +:+ "/" +:+ n) = n.
Proof.
  intros Hn. unfold os.final_element. rewrite split_snoc by done.
  apply last_last.
Qed.

Lemma final_element_Clean_snoc s n :
  s ≠ "" → is_name n → os.final_element (Clean (s +:+ "/" +:+ n)) = n.
Proof.
  intros Hs Hn. unfold os.final_element.
  destruct (split_Clean (s +:+ "/" +:+ n)) as (blanks & -> & _).
  rewrite clean_elems_snoc, app_assoc by done. apply last_last.
Qed.


Lemma final_element_Join_3 d c x :
  d ≠ "" → is_name x → os.final_element (Join [d; c; x]) = x.
Proof.
  intros. rewrite Join_3 by done. apply final_element_Clean_snoc; [|done].
  by destruct d.
Qed.

(** A path that ends in a name leads to a location of that name. *)
Lemma resolve_final_name fs p :
  is_name (os.final_element p) →
  ∃ above, os.resolve fs p = Some (above ++ [os.final_element p]).
Proof.
  unfold os.final_element, os.resolve. intros Hn.
  destruct (decide (p = "")) as [->|Hp]; [done|].
  pose proof (split_not_nil p) as Hsplit.
  destruct (split p) as [|c comps _] using rev_ind; [done|].
  rewrite last_last in *. rewrite foldl_snoc, resolve_step_name by done.
  simpl. by eexists.
Qed.

(** [Delete] joins the collection and the resource first, and the root in
    front of that. *)
Lemma Join_nested d c r :
  d ≠ "" → is_name c → is_name r → Join [d; Join [c; r]] = Join [d; c; r].
Proof.
  intros Hd Hc Hr. rewrite (Join_names c r), Join_2, Join_3 by done.
  by rewrite !str_app_assoc.
Qed.


Lemma Join_Clean_empty x : Join [Clean x; ""] = Clean x.
Proof.
  rewrite Join_2 by apply Clean_not_empty.
  destruct (decide (x = "")) as [->|Hx]; [done|].
  rewrite Clean_Clean_snoc by done. apply Clean_ext.
  - by rewrite rooted_app.
  - unfold clean_elems. rewrite rooted_app, split_snoc, foldl_snoc by done.
    by rewrite clean_step_blank by auto.
Qed.

(** The file of a resource, as [Write] names it, from the path that
    [Delete] probes. *)
Lemma Join_file d c r :
  d ≠ "" → is_name r →
  Join [d; c; r] +:+ ".json" = Join [Join [d; c]; r +:+ ".json"].
Proof.
  intros Hd Hr. pose proof Hr as (_ & _ & _ & ?)%is_name_spec.
  rewrite Join_Join by done.
  rewrite Join_3_suffix; [done|done|done|by apply is_name_json].
Qed.

End resolution.

(** ** The state monad *)

Section monad.
Context {A B : Type}.

Lemma bind_eq (m : M A) (k : A → M B) s :
  (m ≫= k) s = k (m s).1 (m s).2.
Proof. unfold mbind, M_bind, bind. by destruct (m s). Qed.

Lemma lock_free_ret (a : A) : lock_free (mret a).
Proof. intros s. exists []. by rewrite app_nil_r. Qed.

Lemma lock_free_bind (m : M A) (k : A → M B) :
  lock_free m → (∀ a, lock_free (k a)) → lock_free (m ≫= k).
Proof.
  intros Hm Hk s. rewrite bind_eq.
  destruct (Hm s) as (evs1 & E1 & F1).
  destruct (Hk (m s).1 (m s).2) as (evs2 & E2 & F2).
  exists (evs1 ++ evs2). rewrite E2, E1, app_assoc. split; [done|].
  by apply Forall_app.
Qed.

Lemma lock_free_query c (f : os.FS → A) : lock_free (query c f).
Proof. intros s. exists [EvCall c]. split; [done|]. by repeat constructor. Qed.

Lemma preserves_ret P (a : A) : preserves P (mret a).
Proof. by intros s. Qed.

Lemma preserves_bind P (m : M A) (k : A → M B) :
  preserves P m → (∀ a, preserves P (k a)) → preserves P (m ≫= k).
Proof. intros Hm Hk s Hs. rewrite bind_eq. by apply Hk, Hm. Qed.

End monad.

Lemma lock_free_receiver : lock_free receiver.
Proof. intros s. exists []. by rewrite app_nil_r. Qed.

Ltac lock_free_step :=
  first [ apply lock_free_bind; [|intros ?]
        | apply lock_free_ret
        | apply (lock_free_ret (A:=_ * _))
        | apply lock_free_query
        | apply lock_free_receiver ].

Lemma lock_free_stat path : lock_free (stat path).
Proof.
  unfold stat, os_Stat. lock_free_step; [lock_free_step|].
  destruct a as [fi|err]; [lock_free_step|].
  destruct (os.IsNotExist err); lock_free_step.
Qed.

Lemma lock_free_read_records dir files records :
  lock_free (read_records dir files records).
Proof.
  revert records. induction files as [|file files IH]; intros records; simpl.
  - lock_free_step.
  - unfold ioutil_ReadFile. lock_free_step; [lock_free_step|].
    destruct a; [apply IH|lock_free_step].
Qed.

(** ** Validation and locking *)

Section driver.
Context {V : Type} `{JSON V}.

(** C6: [Write] with an empty collection name, or with an empty resource
    name, returns a validation error and the state it was called in: the
    trace has no new event, so the file system was not even looked at,
    and the disk and the registry are as they were. *)
Theorem Write_rejects_empty_names (C R : string) (v : V) (s : state) :
  Write "" R v s = (Some (Errorf "collection name cannot be empty"), s) ∧
  Write C "" v s =
    (Some (Errorf (if decide (C = "") then "collection name cannot be empty"
                   else "missing resource - unable to save record (no name)")),
     s).
Proof.
  split; [done|]. unfold Write. by destruct (decide (C = "")).
Qed.

(** C10: [Read] and [ReadAll] never touch a lock.  Whatever the arguments
    and the state, the events they add to the trace are calls into the
    file system only: the per-collection mutex that [Write] and [Delete]
    hold around their work is neither acquired nor released. *)
Theorem Read_and_ReadAll_take_no_lock (C R : string) (v : V) :
  lock_free (Read C R v) ∧ lock_free (ReadAll C).
Proof.
  split.
  - unfold Read. repeat case_decide; try (apply (lock_free_ret (A:=option error * V))).
    lock_free_step; [lock_free_step|].
    lock_free_step; [apply lock_free_stat|].
    destruct a0; [|apply (lock_free_ret (A:=option error * V))].
    unfold ioutil_ReadFile. lock_free_step; [lock_free_step|].
    destruct a1; apply (lock_free_ret (A:=option error * V)).
  - unfold ReadAll. case_decide; [lock_free_step|].
    lock_free_step; [lock_free_step|].
    lock_free_step; [apply lock_free_stat|].
    destruct a0; [|lock_free_step].
    unfold ioutil_ReadDir. lock_free_step; [lock_free_step|].
    destruct a1; [apply lock_free_read_records|lock_free_step].
Qed.

End driver.

(** ** The mutex registry *)

Lemma getOrCreateMutex_known c m s :
  mutexes (self s) !! c = Some m →
  getOrCreateMutex c s = (m, log [EvLock RegistryMu; EvUnlock RegistryMu] s).
Proof.
  intros Hm. unfold getOrCreateMutex, defer, Lock, Unlock, receiver, emit, log.
  rewrite !bind_eq. simpl. rewrite Hm. simpl. by rewrite <-app_assoc.
Qed.

Lemma getOrCreateMutex_new c s :
  mutexes (self s) !! c = None →
  getOrCreateMutex c s =
    (next_mutex s,
     mkState (mkDriver (<[c := next_mutex s]> (mutexes (self s))) (dir (self s)))
             (S (next_mutex s)) (disk s)
             (trace s ++ [EvLock RegistryMu; EvUnlock RegistryMu])).
Proof.
  intros Hm. unfold getOrCreateMutex, defer, Lock, Unlock, receiver, emit.
  rewrite !bind_eq. simpl. rewrite Hm. simpl. by rewrite <-app_assoc.
Qed.

Section registry.
Context {V : Type} `{JSON V}.
Variables (C : string) (m : nat).

(** The registry never drops or replaces the lock of a collection. *)
Local Abbreviation kept := (holds_lock C m).

Lemma kept_emit e : preserves kept (emit e).
Proof. by intros s. Qed.

Lemma kept_query {A} c (f : os.FS → A) : preserves kept (query c f).
Proof. by intros s. Qed.

Lemma kept_update {A} c (f : os.FS → A * os.FS) : preserves kept (update c f).
Proof. intros s Hs. unfold update. by destruct (f (disk s)). Qed.

Lemma kept_receiver : preserves kept receiver.
Proof. by intros s. Qed.

Lemma kept_getOrCreateMutex c : preserves kept (getOrCreateMutex c).
Proof.
  intros s Hs. destruct (mutexes (self s) !! c) as [m'|] eqn:Hc.
  - by rewrite (getOrCreateMutex_known c m').
  - rewrite getOrCreateMutex_new by done. unfold holds_lock in *. simpl.
    rewrite lookup_insert_ne; [done|]. by intros ->; simplify_eq.
Qed.

Lemma kept_stat path : preserves kept (stat path).
Proof.
  apply preserves_bind; [apply kept_query|]. intros [fi|err].
  - apply preserves_ret.
  - destruct (os.IsNotExist err); [apply kept_query|apply preserves_ret].
Qed.

Lemma kept_defer {A} (final : M unit) (body : M A) :
  preserves kept final → preserves kept body → preserves kept (defer final body).
Proof.
  intros Hf Hb. apply preserves_bind; [done|]. intros a.
  apply preserves_bind; [done|]. intros _. apply preserves_ret.
Qed.

Lemma kept_read_records dir files records :
  preserves kept (read_records dir files records).
Proof.
  revert records. induction files as [|file files IH]; intros records; simpl.
  - apply preserves_ret.
  - apply preserves_bind; [apply kept_query|]. intros [data|err].
    + apply IH.
    + apply preserves_ret.
Qed.

Lemma kept_Write c r (v : V) : preserves kept (Write c r v).
Proof.
  unfold Write. repeat case_decide; try apply preserves_ret.
  apply preserves_bind; [apply kept_getOrCreateMutex|]. intros mutex.
  apply preserves_bind; [apply kept_emit|]. intros _.
  apply kept_defer; [apply kept_emit|].
  apply preserves_bind; [apply kept_receiver|]. intros d.
  apply preserves_bind; [apply kept_update|]. intros [err|]; [apply preserves_ret|].
  destruct (MarshalIndent v "" tab) as [b|err]; [|apply preserves_ret].
  apply preserves_bind; [apply kept_update|]. intros [err|]; [apply preserves_ret|].
  apply kept_update.
Qed.

Lemma kept_Read c r (v : V) : preserves kept (Read c r v).
Proof.
  unfold Read. repeat case_decide; try apply (preserves_ret (A:=option error * V)).
  apply preserves_bind; [apply kept_receiver|]. intros d.
  apply preserves_bind; [apply kept_stat|]. intros [fi|err];
    [|apply (preserves_ret (A:=option error * V))].
  apply preserves_bind; [apply kept_query|]. intros [b|err];
    apply (preserves_ret (A:=option error * V)).
Qed.

Lemma kept_ReadAll c : preserves kept (ReadAll c).
Proof.
  unfold ReadAll. case_decide; [apply preserves_ret|].
  apply preserves_bind; [apply kept_receiver|]. intros d.
  apply preserves_bind; [apply kept_stat|]. intros [fi|err]; [|apply preserves_ret].
  apply preserves_bind; [apply kept_query|]. intros [files|err];
    [apply kept_read_records|apply preserves_ret].
Qed.

Lemma kept_Delete c r : preserves kept (Delete c r).
Proof.
  unfold Delete.
  apply preserves_bind; [apply kept_getOrCreateMutex|]. intros mutex.
  apply preserves_bind; [apply kept_emit|]. intros _.
  apply kept_defer; [apply kept_emit|].
  apply preserves_bind; [apply kept_receiver|]. intros d.
  apply preserves_bind; [apply kept_stat|]. intros [fi|err]; [|apply preserves_ret].
  destruct (os.IsDir fi); [apply kept_update|].
  destruct (os.IsRegular fi); [apply kept_update|apply preserves_ret].
Qed.

Lemma kept_serve (r : request V) s : kept s → kept (serve r s).
Proof.
  destruct r; simpl.
  - apply kept_Write.
  - apply kept_Read.
  - apply kept_ReadAll.
  - apply kept_Delete.
  - apply kept_getOrCreateMutex.
Qed.

Lemma kept_serve_all (later : list (request V)) s :
  kept s → kept (foldl (λ st r, serve r st) s later).
Proof.
  revert s. induction later as [|r later IH]; intros s Hs; [done|].
  simpl. by apply IH, kept_serve.
Qed.

End registry.

Section registry_claim.
Context {V : Type} `{JSON V}.

(** C9: the first [getOrCreateMutex] for a collection name allocates a
    lock that no name of the registry has and stores it under that name;
    after any further calls on the driver the name still has that lock,
    and [getOrCreateMutex] returns it without changing the registry.  The
    registry is a map, so a name never has two locks. *)
Theorem registry_one_lock_per_collection
    (C : string) (s : state) (later : list (request V)) :
  registry_ok s →
  mutexes (self s) !! C = None →
  let m := (getOrCreateMutex C s).1 in
  let s1 := (getOrCreateMutex C s).2 in
  let s2 := foldl (λ st r, serve r st) s1 later in
  (∀ c, mutexes (self s) !! c ≠ Some m) ∧
  mutexes (self s1) = <[C := m]> (mutexes (self s)) ∧
  mutexes (self s2) !! C = Some m ∧
  getOrCreateMutex C s2 = (m, log [EvLock RegistryMu; EvUnlock RegistryMu] s2).
Proof.
  intros Hok Hnew. rewrite getOrCreateMutex_new by done. simpl.
  assert (mutexes (self (foldl (λ st r, serve r st)
            (mkState (mkDriver (<[C := next_mutex s]> (mutexes (self s))) (dir (self s)))
               (S (next_mutex s)) (disk s)
               (trace s ++ [EvLock RegistryMu; EvUnlock RegistryMu])) later))
          !! C = Some (next_mutex s)) as Hkept.
  { apply kept_serve_all. simpl. apply lookup_insert_eq. }
  split_and!; [|done|done|by apply getOrCreateMutex_known].
  intros c Hc. apply Hok in Hc. simpl in Hc. lia.
Qed.

End registry_claim.

Lemma registry_one_lock_per_collection_witness :
  let later := [ReqWrite "users" "John" 30%Z; ReqAcquire "staff";
                ReqDelete "users" ""; ReqRead "users" "John" 0%Z] in
  let s2 := foldl (λ st r, serve r st)
                  (getOrCreateMutex "users" Demo.booted).2 later in
  mutexes (self s2) !! "users" = Some 0 ∧ mutexes (self s2) !! "staff" = Some 1 ∧
  getOrCreateMutex "users" s2
  = (0, log [EvLock RegistryMu; EvUnlock RegistryMu] s2).
Proof.
  intros later s2.
  destruct (registry_one_lock_per_collection "users" Demo.booted later)
    as (_ & _ & Hkept & Hsame).
  - apply map_Forall_empty.
  - reflexivity.
  - split_and!; [exact Hkept|by vm_compute|exact Hsame].
Defined.

(** ** The directory tree *)

Section tree.
Import os.
Implicit Types (m : tree) (loc k : list string).

Lemma prefix_snoc_inv {A} (k l : list A) x :
  k `prefix_of` l ++ [x] → k = l ++ [x] ∨ k `prefix_of` l.
Proof.
  intros [k' E]. destruct k' as [|y k' _] using rev_ind.
  - left. by rewrite app_nil_r in E.
  - right. rewrite app_assoc in E. apply app_inj_tail in E as [-> _].
    by exists k'.
Qed.

Lemma walk_from m at_ rest :
  (∀ k, k `prefix_of` rest → k ≠ rest → m !! (at_ ++ k) = Some Dir) →
  walk m at_ rest = match m !! (at_ ++ rest) with
                    | Some n => inr n
                    | None => inl ENOENT
                    end.
Proof.
  revert at_. induction rest as [|c rest IH]; intros at_ Hdirs; simpl.
  - rewrite app_nil_r. by destruct (m !! at_).
  - pose proof (Hdirs [] (prefix_nil _)) as H0. rewrite app_nil_r in H0.
    rewrite H0 by done. rewrite IH, <-app_assoc; [done|].
    intros k Hk Hne. rewrite <-app_assoc. apply (Hdirs (c :: k)).
    + by apply prefix_cons.
    + congruence.
Qed.

Lemma walk_found m at_ rest n :
  walk m at_ rest = inr n →
  m !! (at_ ++ rest) = Some n ∧
  ∀ k, k `prefix_of` rest → k ≠ rest → m !! (at_ ++ k) = Some Dir.
Proof.
  revert at_. induction rest as [|c rest IH]; intros at_; simpl.
  - rewrite app_nil_r. destruct (m !! at_) eqn:E; [|done].
    intros [= ->]. split; [done|]. intros k Hk%prefix_nil_inv. done.
  - destruct (m !! at_) as [[|data]|] eqn:E; [|done..].
    intros [Hn Hdirs]%IH. rewrite <-app_assoc in Hn. split; [done|].
    intros k Hk Hne. destruct k as [|c' k].
    + by rewrite app_nil_r.
    + apply prefix_cons_inv_1 in Hk as Hc. subst c'.
      apply prefix_cons_inv_2 in Hk.
      specialize (Hdirs k Hk). rewrite <-app_assoc in Hdirs.
      apply Hdirs. congruence.
Qed.

Lemma walk_ok m loc :
  ancestors_ok m loc →
  walk m [] loc = match m !! loc with Some n => inr n | None => inl ENOENT end.
Proof. intros Hok. by apply (walk_from m []). Qed.

Lemma walk_inr m loc n :
  walk m [] loc = inr n ↔ m !! loc = Some n ∧ ancestors_ok m loc.
Proof.
  split.
  - by intros ?%walk_found.
  - intros [Hn Hok]. by rewrite walk_ok, Hn.
Qed.

Lemma ancestors_ok_snoc m loc x :
  ancestors_ok m (loc ++ [x]) ↔ ancestors_ok m loc ∧ m !! loc = Some Dir.
Proof.
  split.
  - intros Hok. split.
    + intros k Hk Hne. apply Hok; [by apply prefix_app_r|].
      intros ->. apply prefix_length in Hk. rewrite length_app in Hk. simpl in Hk. lia.
    + apply Hok; [by apply prefix_app_r|].
      intros E. apply (f_equal length) in E. rewrite length_app in E. simpl in E. lia.
  - intros [Hok Hdir] k Hk Hne.
    apply prefix_snoc_inv in Hk as [->|Hk]; [done|].
    destruct (decide (k = loc)) as [->|]; [done|]. by apply Hok.
Qed.

Lemma walk_snoc m loc x :
  walk m [] loc = inr Dir →
  walk m [] (loc ++ [x]) = match m !! (loc ++ [x]) with
                           | Some n => inr n
                           | None => inl ENOENT
                           end.
Proof.
  intros [Hdir Hok]%walk_inr. apply walk_ok. by apply ancestors_ok_snoc.
Qed.

Lemma ancestors_ok_insert m loc k n :
  ancestors_ok m loc → n = Dir ∨ ¬ k `prefix_of` loc ∨ k = loc →
  ancestors_ok (<[k := n]> m) loc.
Proof.
  intros Hok Hk k' Hpre Hne. destruct (decide (k = k')) as [<-|Hkk].
  - destruct Hk as [->|[?|?]]; [|done..]. apply lookup_insert_eq.
  - rewrite lookup_insert_ne by done. by apply Hok.
Qed.

Lemma ancestors_ok_delete m loc k :
  ancestors_ok m loc → ¬ k `prefix_of` loc ∨ k = loc →
  ancestors_ok (delete k m) loc.
Proof.
  intros Hok Hk k' Hpre Hne. rewrite lookup_delete_ne; [by apply Hok|].
  intros <-. by destruct Hk.
Qed.

Lemma lookup_prune loc m k :
  prune loc m !! k = if decide (loc `prefix_of` k) then None else m !! k.
Proof.
  unfold prune. case_decide as Hpre.
  - apply map_lookup_filter_None. right. intros n _. simpl. by intros [].
  - destruct (m !! k) as [n|] eqn:E.
    + by apply map_lookup_filter_Some.
    + apply map_lookup_filter_None. by left.
Qed.

Lemma ancestors_ok_prune m loc k :
  ancestors_ok m loc → ¬ k `prefix_of` loc ∨ k = loc →
  ancestors_ok (prune k m) loc.
Proof.
  intros Hok Hk k' Hpre Hne. rewrite lookup_prune.
  rewrite decide_False; [by apply Hok|].
  intros Hkk'. destruct Hk as [Hk| ->].
  - apply Hk. by etrans.
  - apply Hne. by apply (anti_symm prefix).
Qed.

Lemma resolve_cwd fs m path : resolve (mkFS (cwd fs) m) path = resolve fs path.
Proof. done. Qed.

Lemma has_nul_app (a b : string) : has_nul (a +:+ b) = has_nul a || has_nul b.
Proof. induction a as [|c a IH]; [done|]. simpl. by case_decide. Qed.

Lemma refused_None path :
  refused path = None ↔ has_nul path = false ∧ String.length path < PATH_MAX.
Proof.
  unfold refused. destruct (has_nul path).
  - split; [done|]. by intros [? _].
  - case_bool_decide.
    + split; [done|]. intros [_ ?]. lia.
    + split; [|done]. intros _. split; [done|lia].
Qed.

Lemma refused_app_l (a b : string) : refused (a +:+ b) = None → refused a = None.
Proof.
  rewrite !refused_None, has_nul_app, str_length_app.
  intros [[-> _]%orb_false_elim Hlen]. split; [done|lia].
Qed.

Lemma refused2_None a b :
  refused2 a b = None ↔ refused a = None ∧ refused b = None.
Proof.
  rewrite !refused_None. unfold refused2.
  destruct (has_nul a) eqn:Ha; simpl.
  { split; [done|]. by intros [[? _] _]. }
  destruct (has_nul b) eqn:Hb; simpl.
  { split; [done|]. by intros [_ [? _]]. }
  destruct (refused a) as [e|] eqn:Hra.
  - split; [done|]. intros [[_ Hlen] _].
    assert (refused a = None) as E by (apply refused_None; by rewrite Ha).
    congruence.
  - rewrite refused_None, Hb. apply refused_None in Hra as [_ ?]. tauto.
Qed.

Lemma name_ok_app_l (a b : string) : name_ok (a +:+ b) → name_ok a.
Proof.
  unfold name_ok. rewrite !bool_decide_spec, str_length_app. lia.
Qed.

Lemma substring_all (s : string) : String.substring 0 (String.length s) s = s.
Proof. induction s as [|c s IH]; [done|]. simpl. by rewrite IH. Qed.

Lemma upto_nil path : upto path [] = path.
Proof. unfold upto. simpl. rewrite Nat.sub_0_r. apply substring_all. Qed.

Lemma base_snoc (above : list string) x : base (above ++ [x]) = x.
Proof. unfold base. apply last_last. Qed.

Lemma WriteFile_ok name data fs fs' :
  WriteFile name data fs = (None, fs') →
  ∃ loc, resolve fs name = Some loc ∧ parent_dir (nodes fs) loc = None ∧
         nodes fs !! loc ≠ Some Dir ∧
         fs' = mkFS (cwd fs) (<[loc := File data]> (nodes fs)).
Proof.
  unfold WriteFile. destruct (refused name); [done|].
  destruct (resolve fs name) as [loc|]; [|done].
  destruct (parent_dir (nodes fs) loc) eqn:Hp; [done|].
  destruct (name_ok (base loc)); [|done].
  destruct (nodes fs !! loc) as [[|old]|] eqn:Hl; [done|..];
    intros [= <-]; exists loc; by rewrite Hl.
Qed.

(** What was written had a path and a name within the limits. *)
Lemma WriteFile_ok_limits name data fs loc :
  (WriteFile name data fs).1 = None → resolve fs name = Some loc →
  refused name = None ∧ name_ok (base loc).
Proof.
  unfold WriteFile. destruct (refused name); [done|]. intros Hok Hres.
  rewrite Hres in Hok. destruct (parent_dir (nodes fs) loc); [done|].
  by destruct (name_ok (base loc)).
Qed.

Lemma parent_dir_ok m loc :
  parent_dir m loc = None → m !! loc ≠ Some Dir → ancestors_ok m loc.
Proof.
  unfold parent_dir. intros Hp Hl.
  destruct loc as [|x loc _] using rev_ind.
  - simpl in Hp. by destruct (m !! []) as [[|?]|].
  - rewrite removelast_last in Hp.
    destruct (walk m [] loc) as [|[|?]] eqn:Hw; [done| |done].
    apply walk_inr in Hw as [??]. by apply ancestors_ok_snoc.
Qed.

(** A file that was written and then renamed is read back under its new
    name. *)
Lemma WriteFile_Rename_ReadFile tmp fnl data fs fs1 fs2 :
  WriteFile tmp data fs = (None, fs1) →
  Rename tmp fnl fs1 = (None, fs2) →
  ReadFile fnl fs2 = Ok data.
Proof.
  intros (lo & Hlo & _ & _ & ->)%WriteFile_ok. unfold Rename, locate.
  destruct (refused2 tmp fnl); [done|].
  rewrite !resolve_cwd, Hlo. simpl.
  destruct (walk _ [] lo) as [|n] eqn:Hw; [done|].
  apply walk_inr in Hw as [Hn _]. rewrite lookup_insert_eq in Hn. simplify_eq.
  destruct (resolve fs fnl) as [ln|] eqn:Hln; [|done].
  set (m1 := <[lo := File data]> (nodes fs)).
  assert (m1 !! lo = Some (File data)) as Hfile by apply lookup_insert_eq.
  assert (parent_dir m1 ln = None → m1 !! ln ≠ Some Dir →
          ReadFile fnl (mkFS (cwd fs) (<[ln := File data]> (delete lo m1))) = Ok data)
    as Hread.
  { intros Hp Hl. unfold ReadFile, locate. rewrite resolve_cwd, Hln. simpl.
    rewrite walk_ok, lookup_insert_eq; [done|].
    apply ancestors_ok_insert; [|auto]. apply ancestors_ok_delete.
    - by apply parent_dir_ok.
    - destruct (decide (lo = ln)) as [|Hne]; [by right|]. left. intros Hpre.
      pose proof (parent_dir_ok _ _ Hp Hl lo Hpre Hne). congruence. }
  destruct (m1 !! ln) as [[|old]|] eqn:Hl.
  - case_decide; [congruence|done].
  - destruct (parent_dir m1 ln) eqn:Hp; [done|].
    destruct (name_ok (base ln)); [|done]. intros [= <-]. by apply Hread.
  - destruct (parent_dir m1 ln) eqn:Hp; [done|].
    destruct (name_ok (base ln)); [|done]. intros [= <-]. by apply Hread.
Qed.



Lemma Stat_inv path fs fi :
  Stat path fs = Ok fi →
  ∃ loc n, resolve fs path = Some loc ∧ walk (nodes fs) [] loc = inr n ∧
           IsDir fi = (if n is Dir then true else false).
Proof.
  unfold Stat, locate. destruct (resolve fs path) as [loc|]; [|done].
  destruct (walk (nodes fs) [] loc) as [|n] eqn:Hw; [done|].
  intros [= <-]. exists loc, n. by destruct n.
Qed.

Lemma Stat_found path fs loc n :
  resolve fs path = Some loc → walk (nodes fs) [] loc = inr n →
  ∃ fi, Stat path fs = Ok fi ∧ IsDir fi = (if n is Dir then true else false).
Proof.
  intros Hr Hw. unfold Stat, locate. rewrite Hr, Hw. eexists. split; [done|].
  by destruct n.
Qed.

Lemma Stat_missing path fs loc e :
  resolve fs path = Some loc → walk (nodes fs) [] loc = inl e →
  Stat path fs = Err (PathError "stat" path e).
Proof. intros Hr Hw. unfold Stat, locate. by rewrite Hr, Hw. Qed.

Lemma ReadFile_inv path fs data :
  ReadFile path fs = Ok data →
  ∃ loc, resolve fs path = Some loc ∧ walk (nodes fs) [] loc = inr (File data).
Proof.
  unfold ReadFile, locate. destruct (resolve fs path) as [loc|]; [|done].
  destruct (walk (nodes fs) [] loc) as [|[|d]] eqn:Hw; [done..|].
  intros [= <-]. by exists loc.
Qed.

Lemma ReadFile_walk path fs fs' loc :
  resolve fs path = Some loc → resolve fs' path = Some loc →
  walk (nodes fs') [] loc = walk (nodes fs) [] loc →
  ReadFile path fs' = ReadFile path fs.
Proof. intros Hr Hr' Hw. unfold ReadFile, locate. by rewrite Hr, Hr', Hw. Qed.

Lemma resolve_some fs path : path ≠ "" → ∃ loc, resolve fs path = Some loc.
Proof. intros Hp. unfold resolve. rewrite decide_False by done. by eexists. Qed.

Lemma locate_eq fs path loc :
  resolve fs path = Some loc →
  locate fs path = match walk (nodes fs) [] loc with
                   | inl e => inl e
                   | inr n => inr (loc, n)
                   end.
Proof. unfold locate. by intros ->. Qed.

Lemma walk_ext m1 m2 at_ rest :
  (∀ j, j `prefix_of` rest → m1 !! (at_ ++ j) = m2 !! (at_ ++ j)) →
  walk m1 at_ rest = walk m2 at_ rest.
Proof.
  revert at_. induction rest as [|c rest IH]; intros at_ Hext; simpl.
  - specialize (Hext [] (prefix_nil _)). rewrite app_nil_r in Hext. by rewrite Hext.
  - pose proof (Hext [] (prefix_nil _)) as H0. rewrite app_nil_r in H0. rewrite H0.
    destruct (m2 !! at_) as [[|?]|]; [|done..].
    apply IH. intros j Hj. rewrite <-app_assoc. apply (Hext (c :: j)).
    by apply prefix_cons.
Qed.

(** Removing a subtree is not seen from outside of it. *)
Lemma walk_prune m loc k :
  ¬ loc `prefix_of` k → walk (prune loc m) [] k = walk m [] k.
Proof.
  intros Hk. apply walk_ext. intros j Hj. simpl. rewrite lookup_prune.
  rewrite decide_False; [done|]. intros Hpre. apply Hk. by etrans.
Qed.

Lemma walk_pruned m loc :
  loc ≠ [] → ancestors_ok m loc → walk (prune loc m) [] loc = inl ENOENT.
Proof.
  intros Hne Hok. rewrite walk_ok.
  - by rewrite lookup_prune, decide_True.
  - apply ancestors_ok_prune; auto.
Qed.

Lemma RemoveAll_ok path fs loc n :
  locate fs path = inr (loc, n) → loc ≠ [] →
  final_element path ≠ "." → final_element path ≠ ".." →
  RemoveAll path fs = (None, mkFS (cwd fs) (prune loc (nodes fs))).
Proof.
  intros Hloc Hne Hdot Hdd. unfold RemoveAll, endsWithDot.
  rewrite decide_False.
  2:{ intros ->. by vm_compute in Hloc. }
  rewrite bool_decide_false, Hloc by done.
  destruct n; [|done]. by rewrite !decide_False.
Qed.

Lemma mkdir_all_app path m at_ r1 r2 :
  (∀ k, k `prefix_of` r1 → k ≠ r1 → m !! (at_ ++ k) = Some Dir) →
  r2 ≠ [] →
  mkdir_all path m at_ (r1 ++ r2) = mkdir_all path m (at_ ++ r1) r2.
Proof.
  revert at_. induction r1 as [|c r1 IH]; intros at_ Hdirs Hr2; simpl.
  - by rewrite app_nil_r.
  - pose proof (Hdirs [] (prefix_nil _)) as H0. rewrite app_nil_r in H0.
    rewrite H0 by done. rewrite IH, <-app_assoc; [done| |done].
    intros k Hk Hne. rewrite <-app_assoc. apply (Hdirs (c :: k)).
    + by apply prefix_cons.
    + congruence.
Qed.

Lemma mkFS_eta fs : mkFS (cwd fs) (nodes fs) = fs.
Proof. by destruct fs. Qed.

(** Creating a directory in a directory that exists. *)
Lemma MkdirAll_child path fs above x :
  resolve fs path = Some (above ++ [x]) →
  walk (nodes fs) [] above = inr Dir →
  nodes fs !! (above ++ [x]) = None ∨ nodes fs !! (above ++ [x]) = Some Dir →
  (nodes fs !! (above ++ [x]) = None → refused path = None ∧ name_ok x) →
  MkdirAll path fs =
    (None, mkFS (cwd fs) (match nodes fs !! (above ++ [x]) with
                          | None => <[above ++ [x] := Dir]> (nodes fs)
                          | Some _ => nodes fs
                          end)).
Proof.
  intros Hres Hwalk Hchild Hlim. pose proof Hwalk as [Hdir Hanc]%walk_inr.
  unfold MkdirAll, Stat, locate. rewrite Hres, (walk_snoc _ _ _ Hwalk).
  destruct Hchild as [Hnone|Hd].
  - rewrite Hnone. destruct (Hlim Hnone) as [Href Hname].
    rewrite (mkdir_all_app _ _ [] above [x]) by done. simpl.
    rewrite Hdir, Hnone, upto_nil. unfold creatable. rewrite Href, base_snoc.
    by destruct (name_ok x).
  - rewrite Hd. simpl. by rewrite mkFS_eta.
Qed.

Lemma WriteFile_child name data fs above x :
  resolve fs name = Some (above ++ [x]) →
  walk (nodes fs) [] above = inr Dir →
  nodes fs !! (above ++ [x]) ≠ Some Dir →
  refused name = None → name_ok x →
  WriteFile name data fs =
    (None, mkFS (cwd fs) (<[above ++ [x] := File data]> (nodes fs))).
Proof.
  intros Hres Hwalk Hchild Href Hname. unfold WriteFile, parent_dir.
  rewrite Href, Hres, removelast_last, Hwalk, base_snoc.
  destruct (name_ok x); [|done].
  by destruct (nodes fs !! (above ++ [x])) as [[|?]|].
Qed.

Lemma WriteFile_long name data fs above x :
  resolve fs name = Some (above ++ [x]) →
  walk (nodes fs) [] above = inr Dir →
  refused name = None → NAME_MAX < String.length x →
  WriteFile name data fs = (Some (PathError "open" name ENAMETOOLONG), fs).
Proof.
  intros Hres Hwalk Href Hlong. unfold WriteFile, parent_dir.
  rewrite Href, Hres, removelast_last, Hwalk, base_snoc.
  unfold name_ok. by rewrite bool_decide_false by lia.
Qed.

Lemma Rename_file oldpath newpath fs old data above x :
  resolve fs oldpath = Some old →
  walk (nodes fs) [] old = inr (File data) →
  resolve fs newpath = Some (above ++ [x]) →
  walk (nodes fs) [] above = inr Dir →
  nodes fs !! (above ++ [x]) ≠ Some Dir →
  refused oldpath = None → refused newpath = None → name_ok x →
  Rename oldpath newpath fs =
    (None, mkFS (cwd fs) (<[above ++ [x] := File data]> (delete old (nodes fs)))).
Proof.
  intros Hold Hwold Hnew Hwalk Hchild Hro Hrn Hname.
  unfold Rename, locate, parent_dir.
  rewrite (proj2 (refused2_None _ _)) by done.
  rewrite Hold, Hwold, Hnew, removelast_last, Hwalk, base_snoc.
  destruct (name_ok x); [|done].
  by destruct (nodes fs !! (above ++ [x])) as [[|?]|].
Qed.

(** [mkdir_all] only adds directories, whether it succeeds or not. *)
Lemma mkdir_all_keeps path m at_ rest :
  (∀ k n, m !! k = Some n → (mkdir_all path m at_ rest).2 !! k = Some n) ∧
  (∀ k n, (mkdir_all path m at_ rest).2 !! k = Some n → m !! k = Some n ∨ n = Dir).
Proof.
  revert m at_. induction rest as [|c rest IH]; intros m at_; simpl.
  - destruct (m !! at_) as [[|data]|] eqn:E; simpl; [auto..|].
    destruct (creatable _ at_); simpl; [auto|]. split.
    + intros k n Hk. rewrite lookup_insert_ne; [done|]. by intros <-; simplify_eq.
    + intros k n. rewrite lookup_insert. case_decide; [|auto].
      intros [= <-]. auto.
  - destruct (m !! at_) as [[|data]|] eqn:E; simpl; [apply IH|auto|].
    destruct (creatable _ at_); simpl; [auto|].
    destruct (IH (<[at_ := Dir]> m) (at_ ++ [c])) as [Hkeep Hnew]. split.
    + intros k n Hk. apply Hkeep. rewrite lookup_insert_ne; [done|].
      by intros <-; simplify_eq.
    + intros k n Hk. apply Hnew in Hk as [Hk|?]; [|auto].
      rewrite lookup_insert in Hk. case_decide; [|auto]. right. congruence.
Qed.

(** When it succeeds, the path it was asked for is a directory
    afterwards. *)
Lemma mkdir_all_spec path m at_ rest m' :
  mkdir_all path m at_ rest = (None, m') →
  walk m' at_ rest = inr Dir ∧
  (∀ k n, m !! k = Some n → m' !! k = Some n) ∧
  (∀ k n, m' !! k = Some n → m !! k = Some n ∨ n = Dir).
Proof.
  intros Hm. pose proof (mkdir_all_keeps path m at_ rest) as Hkeeps.
  rewrite Hm in Hkeeps. split; [|done]. clear Hkeeps.
  revert m at_ Hm. induction rest as [|c rest IH]; intros m at_; simpl.
  - destruct (m !! at_) as [[|data]|] eqn:E; [|done|].
    + intros [= <-]. by rewrite E.
    + destruct (creatable _ at_); [done|]. intros [= <-].
      by rewrite lookup_insert_eq.
  - destruct (m !! at_) as [[|data]|] eqn:E; [|done|].
    + intros Hm. pose proof (mkdir_all_keeps path m (at_ ++ [c]) rest) as [Hkeep _].
      rewrite Hm in Hkeep. simpl in Hkeep. rewrite (Hkeep _ _ E). by apply (IH m).
    + destruct (creatable _ at_); [done|]. intros Hm.
      pose proof (mkdir_all_keeps path (<[at_ := Dir]> m) (at_ ++ [c]) rest)
        as [Hkeep _].
      rewrite Hm in Hkeep. simpl in Hkeep.
      rewrite (Hkeep at_ Dir) by apply lookup_insert_eq.
      by apply IH in Hm.
Qed.

(** [MkdirAll] only adds directories, whether it succeeds or not. *)
Lemma MkdirAll_keeps path fs :
  cwd (MkdirAll path fs).2 = cwd fs ∧
  (∀ k n, nodes fs !! k = Some n → nodes (MkdirAll path fs).2 !! k = Some n) ∧
  (∀ k n, nodes (MkdirAll path fs).2 !! k = Some n →
          nodes fs !! k = Some n ∨ n = Dir).
Proof.
  unfold MkdirAll. destruct (Stat path fs) as [fi|err].
  { destruct (IsDir fi); simpl; auto. }
  destruct (resolve fs path) as [loc|]; simpl; [|auto].
  split; [done|]. apply mkdir_all_keeps.
Qed.

Lemma MkdirAll_ok path fs :
  (MkdirAll path fs).1 = None →
  ∃ fi, Stat path (MkdirAll path fs).2 = Ok fi ∧ IsDir fi = true.
Proof.
  unfold MkdirAll. destruct (Stat path fs) as [fi|err] eqn:Hstat.
  { destruct (IsDir fi) eqn:Hdir; [|done]. intros _. by exists fi. }
  destruct (resolve fs path) as [loc|] eqn:Hloc; [|done]. simpl.
  destruct (mkdir_all path (nodes fs) [] loc) as [[[here e]|] m'] eqn:Hm; [done|].
  intros _. apply mkdir_all_spec in Hm as (Hw & _).
  apply (Stat_found _ _ loc Dir); [|done]. by rewrite resolve_cwd.
Qed.

Lemma MkdirAll_file path fs fi :
  Stat path fs = Ok fi → IsDir fi = false →
  MkdirAll path fs = (Some (PathError "mkdir" path ENOTDIR), fs).
Proof. intros Hstat Hdir. unfold MkdirAll. by rewrite Hstat, Hdir. Qed.

Lemma MkdirAll_child_inv path fs above x :
  resolve fs path = Some (above ++ [x]) →
  walk (nodes fs) [] above = inr Dir →
  (MkdirAll path fs).1 = None →
  nodes fs !! (above ++ [x]) = None ∨ nodes fs !! (above ++ [x]) = Some Dir.
Proof.
  intros Hres Hwalk. unfold MkdirAll, Stat, locate.
  rewrite Hres, (walk_snoc _ _ _ Hwalk).
  destruct (nodes fs !! (above ++ [x])) as [[|?]|]; simpl; auto. done.
Qed.

(** A directory that was created had a path and a name within the
    limits. *)
Lemma MkdirAll_child_limits path fs above x :
  resolve fs path = Some (above ++ [x]) →
  walk (nodes fs) [] above = inr Dir →
  (MkdirAll path fs).1 = None →
  nodes fs !! (above ++ [x]) = None →
  refused path = None ∧ name_ok x.
Proof.
  intros Hres Hwalk Hok Hnone. pose proof Hwalk as [Hdir Hanc]%walk_inr.
  revert Hok. unfold MkdirAll, Stat, locate.
  rewrite Hres, (walk_snoc _ _ _ Hwalk), Hnone.
  rewrite (mkdir_all_app _ _ [] above [x]) by done. simpl.
  rewrite Hdir, Hnone, upto_nil. unfold creatable. rewrite base_snoc.
  destruct (refused path); [done|]. by destruct (name_ok x).
Qed.

Lemma Rename_ok_inv oldpath newpath fs old new :
  resolve fs oldpath = Some old → resolve fs newpath = Some new → new ≠ old →
  (Rename oldpath newpath fs).1 = None →
  nodes fs !! new ≠ Some Dir.
Proof.
  intros Hold Hnew Hne. unfold Rename, locate.
  destruct (refused2 oldpath newpath); [done|]. rewrite Hold, Hnew.
  destruct (walk (nodes fs) [] old) as [e|n]; [done|].
  intros Hok Hdir. rewrite Hdir in Hok. by rewrite decide_False in Hok.
Qed.

Lemma resolve_same fs fs' path : cwd fs' = cwd fs → resolve fs' path = resolve fs path.
Proof. unfold resolve. by intros ->. Qed.

Lemma WriteFile_cwd name data fs : cwd (WriteFile name data fs).2 = cwd fs.
Proof.
  unfold WriteFile. destruct (refused name); [done|].
  destruct (resolve fs name) as [loc|]; [|done].
  destruct (parent_dir (nodes fs) loc); [done|].
  destruct (name_ok (base loc)); [|done].
  by destruct (nodes fs !! loc) as [[|?]|].
Qed.

(** A regular file that is in the tree after [WriteFile] holds the data
    that was written or is one that was there before. *)
Lemma WriteFile_files name data fs k d :
  nodes (WriteFile name data fs).2 !! k = Some (File d) →
  d = data ∨ nodes fs !! k = Some (File d).
Proof.
  unfold WriteFile. destruct (refused name); [auto|].
  destruct (resolve fs name) as [loc|]; [|auto].
  destruct (parent_dir (nodes fs) loc); [auto|].
  destruct (name_ok (base loc)); [|auto].
  destruct (nodes fs !! loc) as [[|?]|]; simpl; [auto|..];
    (rewrite lookup_insert; case_decide; [intros [= <-]; auto|auto]).
Qed.

Lemma Rename_cwd oldpath newpath fs : cwd (Rename oldpath newpath fs).2 = cwd fs.
Proof.
  unfold Rename. destruct (refused2 oldpath newpath); [done|].
  destruct (locate fs oldpath) as [e|[old n]]; [done|].
  destruct (resolve fs newpath) as [new|]; [|done].
  destruct (nodes fs !! new) as [[|d']|], n as [|d]; simpl;
    try (by case_decide);
    try (destruct (parent_dir (nodes fs) new); [done|]);
    try (case_decide; [done|]);
    by destruct (name_ok (base new)).
Qed.

(** A [Rename] that fails leaves the disk as it was. *)
Lemma Rename_fail oldpath newpath fs e :
  (Rename oldpath newpath fs).1 = Some e → (Rename oldpath newpath fs).2 = fs.
Proof.
  unfold Rename. destruct (refused2 oldpath newpath); [done|].
  destruct (locate fs oldpath) as [e'|[old n]]; [done|].
  destruct (resolve fs newpath) as [new|]; [|done].
  destruct (nodes fs !! new) as [[|d']|], n as [|d]; simpl;
    try (by case_decide);
    try (destruct (parent_dir (nodes fs) new); [done|]);
    try (case_decide; [done|]);
    by destruct (name_ok (base new)).
Qed.

Lemma ReadFile_Stat path fs data :
  ReadFile path fs = Ok data → ∃ fi, Stat path fs = Ok fi ∧ IsDir fi = false.
Proof.
  intros (loc & Hres & Hwalk)%ReadFile_inv.
  by apply (Stat_found _ _ loc (File data)).
Qed.

Lemma RemoveAll_missing path fs :
  final_element path ≠ "." → locate fs path = inl ENOENT →
  RemoveAll path fs = (None, fs).
Proof.
  intros Hdot Hloc. unfold RemoveAll, endsWithDot. case_decide; [done|].
  by rewrite bool_decide_false, Hloc.
Qed.

End tree.

(** ** What [Write] does *)

Lemma getOrCreateMutex_frame c s :
  ∃ m reg next,
    getOrCreateMutex c s =
      (m, mkState (mkDriver reg (dir (self s))) next (disk s)
                  (trace s ++ [EvLock RegistryMu; EvUnlock RegistryMu])).
Proof.
  destruct (mutexes (self s) !! c) as [m|] eqn:Hc.
  - exists m, (mutexes (self s)), (next_mutex s).
    rewrite (getOrCreateMutex_known c m) by done. unfold log. by destruct s as [[]].
  - eexists _, _, _. by apply getOrCreateMutex_new.
Qed.

Lemma getOrCreateMutex_registers c s :
  mutexes (self (getOrCreateMutex c s).2) !! c = Some (getOrCreateMutex c s).1.
Proof.
  destruct (mutexes (self s) !! c) as [m|] eqn:Hc.
  - by rewrite (getOrCreateMutex_known c m).
  - rewrite getOrCreateMutex_new by done. simpl. apply lookup_insert_eq.
Qed.

Section write.
Context {V : Type} `{JSON V}.
Local Arguments filepath.Join : simpl never.
Local Arguments os.MkdirAll : simpl never.
Local Arguments os.WriteFile : simpl never.
Local Arguments os.Rename : simpl never.

(** [Write] with valid names and a value that can be encoded, call by
    call. *)
Lemma Write_run (C R : string) (v : V) (b : string) (s : state) :
  C ≠ "" → R ≠ "" → MarshalIndent v "" tab = Ok b →
  let folder := filepath.Join [dir (self s); C] in
  let fnl := filepath.Join [folder; R +:+ ".json"] in
  let tmp := fnl +:+ ".tmp" in
  let data := b +:+ newline in
  let made := os.MkdirAll folder (disk s) in
  let written := os.WriteFile tmp data made.2 in
  let renamed := os.Rename tmp fnl written.2 in
  ∃ m reg next,
    getOrCreateMutex C s =
      (m, mkState (mkDriver reg (dir (self s))) next (disk s)
                  (trace s ++ [EvLock RegistryMu; EvUnlock RegistryMu])) ∧
    let finish err fs calls :=
      (err, mkState (mkDriver reg (dir (self s))) next fs
              (trace s ++ [EvLock RegistryMu; EvUnlock RegistryMu; EvLock (Mutex m)]
                 ++ (EvCall <$> calls) ++ [EvUnlock (Mutex m)])) in
    Write C R v s =
      match made.1, written.1 with
      | Some err, _ => finish (Some err) made.2 [CallMkdirAll folder]
      | None, Some err =>
          finish (Some err) written.2 [CallMkdirAll folder; CallWriteFile tmp data]
      | None, None =>
          finish renamed.1 renamed.2
            [CallMkdirAll folder; CallWriteFile tmp data; CallRename tmp fnl]
      end.
Proof.
  intros HC HR Hb. simpl.
  destruct (getOrCreateMutex_frame C s) as (m & reg & next & Hm).
  exists m, reg, next. split; [done|].
  unfold Write. rewrite !decide_False by done.
  rewrite bind_eq, Hm. simpl.
  unfold defer, Lock, Unlock, emit, receiver, os_MkdirAll, ioutil_WriteFile,
    os_Rename, update.
  rewrite !bind_eq. simpl.
  destruct (os.MkdirAll _ (disk s)) as [[e1|] fs1]; simpl.
  { by rewrite <-!app_assoc. }
  rewrite Hb. rewrite !bind_eq. simpl.
  destruct (os.WriteFile _ _ fs1) as [[e2|] fs2]; simpl.
  { by rewrite <-!app_assoc. }
  destruct (os.Rename _ _ fs2) as [e3 fs3]; simpl.
  by rewrite <-!app_assoc.
Qed.

(** C2: [Write] with non-empty names and a value that the encoder turns
    into [b] when it is given an empty prefix and one tab as the indent.
    The bytes of the record are [b] and exactly one newline byte.  [Write]
    makes three calls into the file system, inside the lock of the
    collection, in this order, each one if and only if the ones before it
    succeeded: [os.MkdirAll] on the collection directory, [ioutil.WriteFile]
    of the bytes to the final path with [.tmp] behind it, and [os.Rename] of
    that file to the final path.  It returns the error of the first call
    that fails and the result of the rename otherwise, and the disk is what
    the last call it made left.  When it returns no error the final path
    reads back as exactly the bytes of the record.  However far the run
    gets, at every point of it, a regular file at the final path holds
    either exactly the bytes of the record or what it held before the
    call. *)
Theorem Write_commits_by_rename (C R : string) (v : V) (b : string) (s : state) :
  C ≠ "" → R ≠ "" → MarshalIndent v "" (String "009"%char "") = Ok b →
  let folder := filepath.Join [dir (self s); C] in
  let fnl := filepath.Join [folder; R +:+ ".json"] in
  let tmp := fnl +:+ ".tmp" in
  let data := b +:+ String "010"%char "" in
  let steps := [CallMkdirAll folder; CallWriteFile tmp data; CallRename tmp fnl] in
  let made := os.MkdirAll folder (disk s) in
  let written := os.WriteFile tmp data made.2 in
  let renamed := os.Rename tmp fnl written.2 in
  let s' := (Write C R v s).2 in
  ∃ m calls loc,
    mutexes (self s') !! C = Some m ∧
    trace s'
    = trace s ++ [EvLock RegistryMu; EvUnlock RegistryMu; EvLock (Mutex m)]
        ++ (EvCall <$> calls) ++ [EvUnlock (Mutex m)] ∧
    calls `prefix_of` steps ∧ calls ≠ [] ∧
    (∀ e, made.1 = Some e →
          calls = [CallMkdirAll folder] ∧
          (Write C R v s).1 = Some e ∧ disk s' = made.2) ∧
    (made.1 = None → ∀ e, written.1 = Some e →
          calls = [CallMkdirAll folder; CallWriteFile tmp data] ∧
          (Write C R v s).1 = Some e ∧ disk s' = written.2) ∧
    (made.1 = None → written.1 = None →
          calls = steps ∧ (Write C R v s).1 = renamed.1 ∧ disk s' = renamed.2) ∧
    ((Write C R v s).1 = None →
     calls = steps ∧ os.ReadFile fnl (disk s') = Ok data) ∧
    os.resolve (disk s) fnl = Some loc ∧
    let intact fs :=
      ∀ data', os.nodes fs !! loc = Some (os.File data') →
               data' = data ∨ os.nodes (disk s) !! loc = Some (os.File data') in
    intact made.2 ∧
    (made.1 = None → intact written.2) ∧
    (made.1 = None → written.1 = None → intact renamed.2) ∧
    intact (disk s').
Proof.
  intros HC HR Hb. cbv zeta.
  set (folder := filepath.Join [dir (self s); C]).
  set (fnl := filepath.Join [folder; R +:+ ".json"]).
  set (tmp := fnl +:+ ".tmp").
  set (data := b +:+ String "010"%char "").
  assert (∃ loc, os.resolve (disk s) fnl = Some loc) as [loc Hloc].
  { apply resolve_some. apply Join_2_not_empty. by destruct R. }
  destruct (Write_run C R v b s HC HR Hb) as (m & reg & next & Hm & Hrun).
  cbv zeta in Hrun. fold folder fnl tmp in Hrun.
  change (b +:+ newline) with data in Hrun.
  pose proof (getOrCreateMutex_registers C s) as Hreg.
  rewrite Hm in Hreg. simpl in Hreg. clear Hm.
  exists m.
  (* what the three calls do to the node of the final path *)
  pose proof (MkdirAll_keeps folder (disk s)) as (Hcwd1 & _ & Hnew1).
  assert (∀ data', os.nodes (os.MkdirAll folder (disk s)).2 !! loc
                   = Some (os.File data') →
                   data' = data ∨ os.nodes (disk s) !! loc = Some (os.File data'))
    as Hmade.
  { intros data' Hd. right. by destruct (Hnew1 _ _ Hd). }
  set (fs1 := (os.MkdirAll folder (disk s)).2) in *.
  assert (∀ data', os.nodes (os.WriteFile tmp data fs1).2 !! loc
                   = Some (os.File data') →
                   data' = data ∨ os.nodes (disk s) !! loc = Some (os.File data'))
    as Hwritten.
  { intros data' [->|Hd]%WriteFile_files; auto. }
  pose proof (WriteFile_cwd tmp data fs1) as Hcwd2.
  set (fs2 := (os.WriteFile tmp data fs1).2) in *.
  assert ((os.MkdirAll folder (disk s)).1 = None →
          (os.WriteFile tmp data fs1).1 = None →
          ∀ data', os.nodes (os.Rename tmp fnl fs2).2 !! loc = Some (os.File data') →
                   data' = data ∨ os.nodes (disk s) !! loc = Some (os.File data'))
    as Hrenamed.
  { intros _ Hwok data' Hd.
    destruct (os.Rename tmp fnl fs2) as [[e3|] fs3] eqn:H3.
    { pose proof (Rename_fail tmp fnl fs2 e3) as Hsame. rewrite H3 in Hsame.
      simpl in Hsame, Hd. rewrite Hsame in Hd by done. by apply Hwritten. }
    left. pose proof (Rename_cwd tmp fnl fs2) as Hcwd3. rewrite H3 in Hcwd3.
    assert (os.ReadFile fnl fs3 = Ok data) as Hread.
    { apply (WriteFile_Rename_ReadFile tmp fnl data fs1 fs2); [|done].
      unfold fs2. by destruct (os.WriteFile tmp data fs1) as [[?|] ?]. }
    apply ReadFile_inv in Hread as (loc' & Hloc' & [Hnode _]%walk_inr).
    rewrite (resolve_same (disk s)) in Hloc'
      by (simpl in Hcwd3; by rewrite Hcwd3, Hcwd2, Hcwd1).
    simpl in Hd. congruence. }
  unfold fs2, fs1 in *. clear fs1 fs2.
  destruct (os.MkdirAll folder (disk s)) as [[e1|] fs1] eqn:H1; simpl in *.
  { exists [CallMkdirAll folder], loc. rewrite Hrun. simpl.
    split_and!;
      first [done | by eexists | by intros e [= <-] | by intros _ _ [= <-] | auto]. }
  destruct (os.WriteFile tmp data fs1) as [[e2|] fs2] eqn:H2; simpl in *.
  { exists [CallMkdirAll folder; CallWriteFile tmp data], loc. rewrite Hrun. simpl.
    split_and!;
      first [done | by eexists | by intros _ e [= <-] | auto]. }
  specialize (Hrenamed eq_refl eq_refl).
  destruct (os.Rename tmp fnl fs2) as [e3 fs3] eqn:H3; simpl in *.
  exists [CallMkdirAll folder; CallWriteFile tmp data; CallRename tmp fnl], loc.
  rewrite Hrun. simpl.
  split_and!; first [done | auto; fail | idtac].
  intros ->. split; [done|]. by eapply WriteFile_Rename_ReadFile.
Qed.

End write.

(** ** What a successful [Write] leaves on the disk *)

Section write_tree.
Context {V : Type} `{JSON V}.
Import filepath.
Local Arguments filepath.Join : simpl never.
Local Arguments os.MkdirAll : simpl never.
Local Arguments os.WriteFile : simpl never.
Local Arguments os.Rename : simpl never.

Lemma snoc_ne {A} (l : list A) y : l ++ [y] ≠ l.
Proof.
  intros E. apply (f_equal length) in E. rewrite length_app in E. simpl in E. lia.
Qed.

Lemma Write_tree (C R : string) (v : V) (b : string) (s : state) root :
  os.resolve (disk s) (dir (self s)) = Some root →
  is_name C → R ≠ "" → sep_free R → MarshalIndent v "" tab = Ok b →
  let m := os.nodes (disk s) in
  let loc := root ++ [C] in
  let fnl := loc ++ [R +:+ ".json"] in
  let tmp := loc ++ [R +:+ ".json" +:+ ".tmp"] in
  os.walk m [] root = inr os.Dir →
  m !! loc = None ∨ m !! loc = Some os.Dir →
  m !! fnl ≠ Some os.Dir → m !! tmp ≠ Some os.Dir →
  os.refused (Join [Join [dir (self s); C]; R +:+ ".json"] +:+ ".tmp") = None →
  os.name_ok (R +:+ ".json" +:+ ".tmp") →
  (m !! loc = None → os.name_ok C) →
  (Write C R v s).1 = None ∧
  dir (self (Write C R v s).2) = dir (self s) ∧
  disk (Write C R v s).2 =
    os.mkFS (os.cwd (disk s))
      (<[fnl := os.File (b +:+ newline)]> (delete tmp (<[loc := os.Dir]> m))).
Proof.
  intros Hroot HC HR HRfree Hb m loc fnl tmp Hwalk Hloc Hfnl Htmp Href Hshort HCshort.
  pose proof (resolve_not_empty _ _ _ Hroot) as Hd.
  pose proof HC as (HCne & _)%is_name_spec.
  pose proof (is_name_json R HRfree) as Hjson.
  assert (is_name ((R +:+ ".json") +:+ ".tmp")) as Htmpname
    by by apply is_name_suffix.
  destruct (Write_run C R v b s HCne HR Hb) as (mx & reg & next & _ & ->).
  set (folder := Join [dir (self s); C]).
  set (data := b +:+ newline).
  (* the three paths *)
  assert (os.resolve (disk s) folder = Some loc) as Hrfolder
    by by apply resolve_Join_2.
  assert (Join [folder; R +:+ ".json"] = Join [dir (self s); C; R +:+ ".json"])
    as Hjoin by by apply Join_Join.
  assert (os.resolve (disk s) (Join [folder; R +:+ ".json"]) = Some fnl) as Hrfnl.
  { rewrite Hjoin, (resolve_Join_3 _ _ _ _ root) by done.
    unfold fnl, loc. by rewrite <-app_assoc. }
  assert (os.resolve (disk s) (Join [folder; R +:+ ".json"] +:+ ".tmp") = Some tmp)
    as Hrtmp.
  { rewrite Hjoin, Join_3_suffix, (resolve_Join_3 _ _ _ _ root) by done.
    unfold tmp, loc. by rewrite <-app_assoc, str_app_assoc. }
  (* the limits *)
  fold folder in Href.
  assert (os.refused (Join [folder; R +:+ ".json"]) = None) as Hreffnl
    by by apply refused_app_l in Href.
  assert (os.refused folder = None) as Hreffolder.
  { rewrite Hjoin in Hreffnl. unfold folder.
    rewrite Join_snoc_name in Hreffnl by done. by apply refused_app_l in Hreffnl. }
  assert (os.name_ok (R +:+ ".json")) as Hshortfnl.
  { rewrite <-str_app_assoc in Hshort. by apply name_ok_app_l in Hshort. }
  (* MkdirAll *)
  set (m1 := <[loc := os.Dir]> m).
  assert (os.MkdirAll folder (disk s) = (None, os.mkFS (os.cwd (disk s)) m1)) as ->.
  { rewrite (MkdirAll_child _ _ root C) by auto. fold m loc.
    unfold m1. destruct Hloc as [-> | Hdir]; [done|]. by rewrite Hdir, insert_id. }
  simpl.
  pose proof Hwalk as [Hrootdir Hrootanc]%walk_inr.
  assert (ancestors_ok m1 loc) as Hanc1.
  { apply ancestors_ok_insert; [|auto]. by apply ancestors_ok_snoc. }
  assert (os.walk m1 [] loc = inr os.Dir) as Hwalk1.
  { apply walk_inr. split; [apply lookup_insert_eq|done]. }
  assert (tmp ≠ loc) as Htl by apply snoc_ne.
  assert (fnl ≠ loc) as Hfl by apply snoc_ne.
  assert (fnl ≠ tmp) as Hft.
  { unfold fnl, tmp. intros E%app_inv_head. injection E as E.
    apply (f_equal String.length) in E. rewrite !str_length_app in E. simpl in E. lia. }
  (* WriteFile *)
  rewrite (WriteFile_child _ data (os.mkFS (os.cwd (disk s)) m1) loc
             (R +:+ ".json" +:+ ".tmp")); [| |done| |done|done].
  2:{ by rewrite resolve_cwd. }
  2:{ simpl. unfold m1. rewrite lookup_insert_ne by done. exact Htmp. }
  simpl. fold tmp.
  set (m2 := <[tmp := os.File data]> m1).
  assert (os.walk m2 [] loc = inr os.Dir) as Hwalk2.
  { apply walk_inr. split.
    - unfold m2. rewrite lookup_insert_ne by done. apply lookup_insert_eq.
    - apply ancestors_ok_insert; [done|]. right; left. intros Hpre.
      apply prefix_length in Hpre. unfold tmp in Hpre.
      rewrite length_app in Hpre. simpl in Hpre. lia. }
  (* Rename *)
  rewrite (Rename_file _ _ (os.mkFS (os.cwd (disk s)) m2) tmp data loc (R +:+ ".json")).
  - simpl. fold fnl. split_and!; [done..|]. f_equal. f_equal.
    unfold m2. apply delete_insert_eq.
  - by rewrite resolve_cwd.
  - simpl. apply walk_inr. split; [apply lookup_insert_eq|].
    unfold tmp. apply ancestors_ok_snoc. by apply walk_inr in Hwalk2 as [??].
  - by rewrite resolve_cwd.
  - done.
  - simpl. fold fnl. unfold m2, m1. by rewrite !lookup_insert_ne.
  - done.
  - done.
  - done.
Qed.

End write_tree.

(** ** What [Delete] and [ReadAll] do *)

Section runs.
Local Arguments filepath.Join : simpl never.
Local Arguments os.Stat : simpl never.
Local Arguments os.RemoveAll : simpl never.
Local Arguments os.ReadDir : simpl never.
Local Arguments os.ReadFile : simpl never.

Lemma stat_run path s :
  stat path s = ((probe path (disk s)).1, log (EvCall <$> (probe path (disk s)).2) s).
Proof.
  unfold stat, probe, os_Stat, query, log. rewrite bind_eq. simpl.
  destruct (os.Stat path (disk s)) as [fi|err]; [done|].
  destruct (os.IsNotExist err); simpl; [|done]. by rewrite <-app_assoc.
Qed.

(** [Delete], call by call: the probe, then [os.RemoveAll] on what the
    probe found. *)
Lemma Delete_run (C R : string) (s : state) :
  let path := filepath.Join [C; R] in
  let folder := filepath.Join [dir (self s); path] in
  let found := probe folder (disk s) in
  ∃ m reg next,
    let finish err fs calls :=
      (err, mkState (mkDriver reg (dir (self s))) next fs
              (trace s ++ [EvLock RegistryMu; EvUnlock RegistryMu; EvLock (Mutex m)]
                 ++ (EvCall <$> calls) ++ [EvUnlock (Mutex m)])) in
    Delete C R s =
      match found.1 with
      | Err _ =>
          finish (Some (Errorf ("unable to find file or dir named " +:+ path)))
                 (disk s) found.2
      | Ok fi =>
          let target := if os.IsDir fi then folder else folder +:+ ".json" in
          let removed := os.RemoveAll target (disk s) in
          finish removed.1 removed.2 (found.2 ++ [CallRemoveAll target])
      end.
Proof.
  simpl. destruct (getOrCreateMutex_frame C s) as (m & reg & next & Hm).
  exists m, reg, next. unfold Delete. rewrite bind_eq, Hm. simpl.
  unfold defer, Lock, Unlock, emit, receiver. rewrite !bind_eq. simpl.
  rewrite stat_run. simpl.
  destruct (probe _ (disk s)) as [[fi|err] calls]; simpl.
  - unfold os.IsRegular. destruct (os.IsDir fi); simpl.
    + unfold os_RemoveAll, update. simpl. destruct (os.RemoveAll _ _); simpl.
      by rewrite fmap_app, <-!app_assoc.
    + unfold os_RemoveAll, update. simpl. destruct (os.RemoveAll _ _); simpl.
      by rewrite fmap_app, <-!app_assoc.
  - by rewrite <-!app_assoc.
Qed.

Lemma read_records_ok folder files datas records s :
  Forall2 (λ file data,
             os.ReadFile (filepath.Join [folder; os.Name file]) (disk s) = Ok data)
          files datas →
  (read_records folder files records s).1 = Ok (records ++ datas) ∧
  disk (read_records folder files records s).2 = disk s.
Proof.
  revert datas records s.
  induction files as [|file files IH]; intros datas records s Hall.
  - apply Forall2_nil_inv_l in Hall as ->. simpl. by rewrite app_nil_r.
  - apply Forall2_cons_inv_l in Hall as (data & datas' & Hfile & Hrest & ->). simpl.
    rewrite bind_eq. unfold ioutil_ReadFile at 1 2. unfold query. simpl.
    rewrite Hfile. destruct (IH datas' (records ++ [data])
      (mkState (self s) (next_mutex s) (disk s)
         (trace s ++ [EvCall (CallReadFile (filepath.Join [folder; os.Name file]))])))
      as [Hv Hd]; [done|].
    by rewrite Hv, Hd, <-app_assoc.
Qed.

(** [ReadAll] of a non-empty name: the probe, the directory listing, the
    files. *)
Lemma ReadAll_run (C : string) (s : state) :
  C ≠ "" →
  let folder := filepath.Join [dir (self s); C] in
  let after := log (EvCall <$> (probe folder (disk s)).2) s in
  ReadAll C s =
    match (probe folder (disk s)).1 with
    | Err err => (Err err, after)
    | Ok _ =>
        match os.ReadDir folder (disk s) with
        | Err err => (Err err, log [EvCall (CallReadDir folder)] after)
        | Ok files =>
            read_records folder files [] (log [EvCall (CallReadDir folder)] after)
        end
    end.
Proof.
  intros HC. simpl. unfold ReadAll. rewrite decide_False by done.
  unfold receiver. rewrite !bind_eq. simpl. rewrite stat_run. simpl.
  destruct (probe _ (disk s)) as [[fi|err] calls]; simpl; [|done].
  rewrite bind_eq. unfold ioutil_ReadDir, query. simpl.
  by destruct (os.ReadDir _ (disk s)).
Qed.

End runs.

(** ** [Delete] *)

Section delete.
Import filepath.
Local Arguments filepath.Join : simpl never.
Local Arguments os.Stat : simpl never.
Local Arguments os.RemoveAll : simpl never.
Local Arguments os.ReadDir : simpl never.
Local Arguments os.ReadFile : simpl never.

Lemma not_prefix_sibling {A} (l : list A) x y : x ≠ y → ¬ l ++ [x] `prefix_of` l ++ [y].
Proof.
  intros Hne Hpre. apply prefix_app_inv in Hpre.
  by apply prefix_cons_inv_1 in Hpre.
Qed.

(** C3, for bare names: when the collection and the resource are names,
    the file of the resource exists and the collection holds no directory
    of the resource's name, [Delete] succeeds, the file of the resource is
    gone, every other resource of the collection reads as before, and the
    tree has lost the location of that file and nothing else. *)
Theorem Delete_removes_the_resource_file (C R data : string) (s : state) :
  dir (self s) ≠ "" → is_name C → is_name R →
  let file r := Join [Join [dir (self s); C]; r +:+ ".json"] in
  os.ReadFile (file R) (disk s) = Ok data →
  (∀ fi, os.Stat (Join [dir (self s); C; R]) (disk s) = Ok fi → os.IsDir fi = false) →
  let s' := (Delete C R s).2 in
  (Delete C R s).1 = None ∧
  os.ReadFile (file R) (disk s') = Err (PathError "open" (file R) ENOENT) ∧
  (∀ R', sep_free R' → R' ≠ R →
         os.ReadFile (file R') (disk s') = os.ReadFile (file R') (disk s)) ∧
  ∃ loc, os.resolve (disk s) (file R) = Some loc ∧
         os.nodes (disk s') = os.prune loc (os.nodes (disk s)).
Proof.
  intros Hd HC HR file Hfile Hnodir.
  destruct (resolve_some (disk s) _ Hd) as [root Hroot].
  pose proof HR as (_ & _ & _ & HRfree)%is_name_spec.
  assert (∀ r, sep_free r →
            os.resolve (disk s) (file r) = Some (root ++ [C; r +:+ ".json"])) as Hres.
  { intros r Hr. unfold file. rewrite Join_Join by done.
    apply resolve_Join_3; [done..|]. by apply is_name_json. }
  set (floc := root ++ [C; R +:+ ".json"]).
  apply ReadFile_inv in Hfile as (loc & Hloc & Hwalk).
  rewrite Hres in Hloc by done. injection Hloc as <-. fold floc in Hwalk.
  pose proof Hwalk as [Hlook Hanc]%walk_inr.
  assert (floc = (root ++ [C]) ++ [R +:+ ".json"]) as Hfloc
    by (unfold floc; by rewrite <-app_assoc).
  rewrite Hfloc in Hanc. apply ancestors_ok_snoc in Hanc as [HancC HdirC].
  (* the probe finds the file, directly or by the added suffix *)
  assert (os.resolve (disk s) (Join [dir (self s); C; R]) = Some (root ++ [C; R]))
    as HresR by by apply resolve_Join_3.
  assert (Join [dir (self s); C; R] +:+ ".json" = file R) as Hsuffix
    by by apply Join_file.
  assert (∃ fi calls, probe (Join [dir (self s); C; R]) (disk s) = (Ok fi, calls) ∧
                      os.IsDir fi = false) as (fi & calls & Hprobe & Hfi).
  { unfold probe.
    destruct (os.Stat (Join [dir (self s); C; R]) (disk s)) as [fi|err] eqn:Hstat.
    - exists fi. eexists. split; [done|]. by apply Hnodir.
    - assert (err = PathError "stat" (Join [dir (self s); C; R]) ENOENT) as ->.
      { unfold os.Stat, os.locate in Hstat. rewrite HresR in Hstat.
        replace (root ++ [C; R]) with ((root ++ [C]) ++ [R]) in Hstat
          by by rewrite <-app_assoc.
        rewrite walk_snoc in Hstat by by apply walk_inr.
        destruct (os.nodes (disk s) !! _); [done|]. by injection Hstat as <-. }
      simpl. rewrite Hsuffix.
      destruct (Stat_found (file R) (disk s) floc (os.File data)) as (fi & -> & Hfi);
        [by apply Hres|done|].
      by exists fi; eexists. }
  destruct (Delete_run C R s) as (m & reg & next & Hrun).
  rewrite Join_nested in Hrun by done. simpl in Hrun.
  rewrite Hprobe in Hrun. simpl in Hrun. rewrite Hfi, Hsuffix in Hrun.
  rewrite (RemoveAll_ok (file R) (disk s) floc (os.File data)) in Hrun.
  2:{ rewrite (locate_eq _ _ floc) by by apply Hres. by rewrite Hwalk. }
  2:{ unfold floc. by destruct root. }
  2,3: unfold file; rewrite Join_Join, final_element_Join_3 by
         (done || by apply is_name_json);
       intros E; by destruct R as [|? [|? [|? ?]]].
  simpl in Hrun. rewrite Hrun. simpl. split_and!.
  - done.
  - unfold os.ReadFile, os.locate. rewrite resolve_cwd, Hres by done. simpl.
    rewrite walk_pruned; [done| |].
    + unfold floc. by destruct root.
    + fold floc. rewrite Hfloc. by apply ancestors_ok_snoc.
  - intros R' HR' Hne. apply (ReadFile_walk _ _ _ (root ++ [C; R' +:+ ".json"])).
    + by apply Hres.
    + rewrite resolve_cwd. by apply Hres.
    + simpl. apply walk_prune. unfold floc.
      replace (root ++ [C; R +:+ ".json"]) with ((root ++ [C]) ++ [R +:+ ".json"])
        by by rewrite <-app_assoc.
      replace (root ++ [C; R' +:+ ".json"]) with ((root ++ [C]) ++ [R' +:+ ".json"])
        by by rewrite <-app_assoc.
      apply not_prefix_sibling. intros E. apply Hne. symmetry.
      by apply str_app_cancel_r in E.
  - exists floc. split; [by apply Hres|done].
Qed.


(** C5, for a root that has a name: when the driver's root is a cleaned
    path whose last element is a name and the root directory exists,
    [Delete] with two empty names probes the root path itself, removes it
    with [os.RemoveAll] and succeeds; the root directory and everything
    below it is gone from the tree, and nothing else is. *)
Theorem Delete_removes_the_root (x : string) (fi : os.FileInfo) (s : state) :
  dir (self s) = Clean x →
  is_name (os.final_element (dir (self s))) →
  os.Stat (dir (self s)) (disk s) = Ok fi → os.IsDir fi = true →
  let s' := (Delete "" "" s).2 in
  (Delete "" "" s).1 = None ∧
  (∃ m, trace s' = trace s
          ++ [EvLock RegistryMu; EvUnlock RegistryMu; EvLock (Mutex m)]
          ++ [EvCall (CallStat (dir (self s))); EvCall (CallRemoveAll (dir (self s)))]
          ++ [EvUnlock (Mutex m)]) ∧
  os.Stat (dir (self s)) (disk s') = Err (PathError "stat" (dir (self s)) ENOENT) ∧
  ∃ loc, os.resolve (disk s) (dir (self s)) = Some loc ∧
         os.nodes (disk s') = os.prune loc (os.nodes (disk s)).
Proof.
  intros Hclean Hname Hstat Hdir.
  destruct (resolve_final_name (disk s) _ Hname) as [above Hres].
  set (root := above ++ [os.final_element (dir (self s))]) in *.
  apply Stat_inv in Hstat as Hinv. destruct Hinv as (loc & n & Hloc & Hwalk & Hn).
  rewrite Hres in Hloc. injection Hloc as <-.
  rewrite Hdir in Hn. destruct n as [|?]; [clear Hn|done].
  pose proof Hwalk as [Hlook Hanc]%walk_inr.
  pose proof Hname as (_ & Hdot & Hdd & _)%is_name_spec.
  destruct (Delete_run "" "" s) as (m & reg & next & Hrun).
  change (Join [""; ""]) with "" in Hrun.
  assert (Join [dir (self s); ""] = dir (self s)) as Hjoin.
  { rewrite Hclean. apply Join_Clean_empty. }
  simpl in Hrun. rewrite Hjoin in Hrun.
  unfold probe in Hrun. rewrite Hstat in Hrun. simpl in Hrun. rewrite Hdir in Hrun.
  rewrite (RemoveAll_ok _ (disk s) root os.Dir) in Hrun; [| |by destruct above|done..].
  2:{ rewrite (locate_eq _ _ root) by done. by rewrite Hwalk. }
  simpl in Hrun. rewrite Hrun. simpl. split_and!.
  - done.
  - by exists m.
  - apply (Stat_missing _ _ root); [done|]. simpl.
    apply walk_pruned; [by destruct above|done].
  - by exists root.
Qed.

End delete.

(** ** Reading changes nothing *)

Section readers.
Context {V : Type} `{JSON V}.

Lemma reads_only_ret {A} (a : A) : reads_only (mret a).
Proof. intros s. exists []. unfold log_events. rewrite app_nil_r. by destruct s. Qed.

Lemma reads_only_bind {A B} (m : M A) (k : A → M B) :
  reads_only m → (∀ a, reads_only (k a)) → reads_only (m ≫= k).
Proof.
  intros Hm Hk s. rewrite bind_eq.
  destruct (Hm s) as [evs1 E1]. destruct (Hk (m s).1 (m s).2) as [evs2 E2].
  exists (evs1 ++ evs2). rewrite E2, E1. unfold log_events. simpl.
  by rewrite app_assoc.
Qed.

Lemma reads_only_query {A} c (f : os.FS → A) : reads_only (query c f).
Proof. intros s. by exists [EvCall c]. Qed.

Lemma reads_only_receiver : reads_only receiver.
Proof. intros s. exists []. unfold log_events. rewrite app_nil_r. by destruct s. Qed.

Lemma reads_only_stat path : reads_only (stat path).
Proof.
  apply reads_only_bind; [apply reads_only_query|]. intros [fi|err].
  - apply reads_only_ret.
  - destruct (os.IsNotExist err); [apply reads_only_query|apply reads_only_ret].
Qed.

Lemma reads_only_read_records folder files records :
  reads_only (read_records folder files records).
Proof.
  revert records. induction files as [|file files IH]; intros records; simpl.
  - apply reads_only_ret.
  - apply reads_only_bind; [apply reads_only_query|]. intros [data|err].
    + apply IH.
    + apply reads_only_ret.
Qed.

Lemma reads_only_Read (C R : string) (v : V) : reads_only (Read C R v).
Proof.
  unfold Read.
  repeat case_decide; try apply (reads_only_ret (A:=option error * V)).
  apply reads_only_bind; [apply reads_only_receiver|]. intros d.
  apply reads_only_bind; [apply reads_only_stat|]. intros [fi|err];
    [|apply (reads_only_ret (A:=option error * V))].
  apply reads_only_bind; [apply reads_only_query|]. intros [b|err];
    apply (reads_only_ret (A:=option error * V)).
Qed.

Lemma reads_only_ReadAll (C : string) : reads_only (ReadAll C).
Proof.
  unfold ReadAll. case_decide; [apply (reads_only_ret (A:=result (list string)))|].
  apply reads_only_bind; [apply reads_only_receiver|]. intros d.
  apply reads_only_bind; [apply reads_only_stat|]. intros [fi|err];
    [|apply (reads_only_ret (A:=result (list string)))].
  apply reads_only_bind; [apply reads_only_query|]. intros [files|err];
    [apply reads_only_read_records|apply (reads_only_ret (A:=result (list string)))].
Qed.

(** X9: [Read] and [ReadAll] only look: whatever their arguments and
    whatever they return, the disk, the registry and the driver are
    afterwards what they were before; only the trace has grown.  With an
    empty collection name, and [Read] also with an empty resource name, they
    return their validation error, [Read] hands the target back untouched,
    and not even the trace grows. *)
Theorem Read_and_ReadAll_change_nothing (C R : string) (v : V) (s : state) :
  (∃ evs, (Read C R v s).2 = log_events evs s) ∧
  (∃ evs, (ReadAll C s).2 = log_events evs s) ∧
  Read "" R v s = ((Some (Errorf "collection name cannot be empty"), v), s) ∧
  (C ≠ "" →
   Read C "" v s
   = ((Some (Errorf "cissing resource - unable to read record (no name)"), v), s)) ∧
  ReadAll "" s = (Err (Errorf "collection name cannot be empty"), s).
Proof.
  split_and!; [apply reads_only_Read|apply reads_only_ReadAll|done| |done].
  intros HC. unfold Read. by rewrite decide_False.
Qed.

End readers.

(** ** What every call on a driver keeps *)

Section invariant.
Context {V : Type} `{JSON V}.
Variable P : state → Prop.
Hypothesis P_frame :
  ∀ s fs tr, P s → P (mkState (self s) (next_mutex s) fs tr).
Hypothesis P_registry : ∀ c, preserves P (getOrCreateMutex c).

Lemma inv_emit e : preserves P (emit e).
Proof. intros s Hs. by apply P_frame. Qed.

Lemma inv_query {A} c (f : os.FS → A) : preserves P (query c f).
Proof. intros s Hs. by apply P_frame. Qed.

Lemma inv_update {A} c (f : os.FS → A * os.FS) : preserves P (update c f).
Proof. intros s Hs. unfold update. destruct (f (disk s)). by apply P_frame. Qed.

Lemma inv_receiver : preserves P receiver.
Proof. by intros s. Qed.

Lemma inv_stat path : preserves P (stat path).
Proof.
  apply preserves_bind; [apply inv_query|]. intros [fi|err].
  - apply preserves_ret.
  - destruct (os.IsNotExist err); [apply inv_query|apply preserves_ret].
Qed.

Lemma inv_defer {A} (final : M unit) (body : M A) :
  preserves P final → preserves P body → preserves P (defer final body).
Proof.
  intros Hf Hb. apply preserves_bind; [done|]. intros a.
  apply preserves_bind; [done|]. intros _. apply preserves_ret.
Qed.

Lemma inv_read_records folder files records :
  preserves P (read_records folder files records).
Proof.
  revert records. induction files as [|file files IH]; intros records; simpl.
  - apply preserves_ret.
  - apply preserves_bind; [apply inv_query|]. intros [data|err].
    + apply IH.
    + apply preserves_ret.
Qed.

Lemma inv_Write c r (v : V) : preserves P (Write c r v).
Proof.
  unfold Write. repeat case_decide; try apply preserves_ret.
  apply preserves_bind; [apply P_registry|]. intros mutex.
  apply preserves_bind; [apply inv_emit|]. intros _.
  apply inv_defer; [apply inv_emit|].
  apply preserves_bind; [apply inv_receiver|]. intros d.
  apply preserves_bind; [apply inv_update|]. intros [err|]; [apply preserves_ret|].
  destruct (MarshalIndent v "" tab) as [b|err]; [|apply preserves_ret].
  apply preserves_bind; [apply inv_update|]. intros [err|]; [apply preserves_ret|].
  apply inv_update.
Qed.

Lemma inv_Read c r (v : V) : preserves P (Read c r v).
Proof.
  unfold Read. repeat case_decide; try apply (preserves_ret (A:=option error * V)).
  apply preserves_bind; [apply inv_receiver|]. intros d.
  apply preserves_bind; [apply inv_stat|]. intros [fi|err];
    [|apply (preserves_ret (A:=option error * V))].
  apply preserves_bind; [apply inv_query|]. intros [b|err];
    apply (preserves_ret (A:=option error * V)).
Qed.

Lemma inv_ReadAll c : preserves P (ReadAll c).
Proof.
  unfold ReadAll. case_decide; [apply preserves_ret|].
  apply preserves_bind; [apply inv_receiver|]. intros d.
  apply preserves_bind; [apply inv_stat|]. intros [fi|err]; [|apply preserves_ret].
  apply preserves_bind; [apply inv_query|]. intros [files|err];
    [apply inv_read_records|apply preserves_ret].
Qed.

Lemma inv_Delete c r : preserves P (Delete c r).
Proof.
  unfold Delete.
  apply preserves_bind; [apply P_registry|]. intros mutex.
  apply preserves_bind; [apply inv_emit|]. intros _.
  apply inv_defer; [apply inv_emit|].
  apply preserves_bind; [apply inv_receiver|]. intros d.
  apply preserves_bind; [apply inv_stat|]. intros [fi|err]; [|apply preserves_ret].
  destruct (os.IsDir fi); [apply inv_update|].
  destruct (os.IsRegular fi); [apply inv_update|apply preserves_ret].
Qed.

Lemma inv_serve_all (requests : list (request V)) s :
  P s → P (foldl (λ st r, serve r st) s requests).
Proof.
  revert s. induction requests as [|r requests IH]; intros s Hs; [done|].
  simpl. apply IH. destruct r; simpl.
  - by apply inv_Write.
  - by apply inv_Read.
  - by apply inv_ReadAll.
  - by apply inv_Delete.
  - by apply P_registry.
Qed.

End invariant.

Lemma registry_inj_getOrCreateMutex c :
  preserves (λ s, registry_ok s ∧ registry_inj s) (getOrCreateMutex c).
Proof.
  intros s [Hok Hinj]. destruct (mutexes (self s) !! c) as [m|] eqn:Hc.
  - by rewrite (getOrCreateMutex_known c m).
  - rewrite getOrCreateMutex_new by done. split.
    + unfold registry_ok. simpl. apply map_Forall_insert_2; [lia|].
      eapply map_Forall_impl; [exact Hok|]. simpl. intros; lia.
    + intros c1 c2 m. simpl. rewrite !lookup_insert. repeat case_decide; subst.
      * done.
      * intros [= <-] Hc2. apply Hok in Hc2. simpl in Hc2. lia.
      * intros Hc1 [= <-]. apply Hok in Hc1. simpl in Hc1. lia.
      * apply Hinj.
Qed.

Lemma root_getOrCreateMutex d c :
  preserves (λ s, dir (self s) = d) (getOrCreateMutex c).
Proof.
  intros s Hs. destruct (getOrCreateMutex_frame c s) as (m & reg & next & ->).
  done.
Qed.

Section driver_invariants.
Context {V : Type} `{JSON V}.

(** X15: Whatever calls are made on a driver that [New] returned, in whatever
    order and with whatever outcome: its root stays the cleaned path it was
    created with, every lock of the registry is one that was allocated, and
    two different collection names never have the same lock. *)
Theorem driver_keeps_root_and_distinct_locks
    (root : string) (fs : os.FS) (requests : list (request V)) :
  let s := foldl (λ st r, serve r st) (New root fs).2 requests in
  dir (self s) = filepath.Clean root ∧ registry_ok s ∧ registry_inj s.
Proof.
  assert (dir (self (New root fs).2) = filepath.Clean root ∧
          mutexes (self (New root fs).2) = ∅) as [Hdir Hreg].
  { unfold New, os_Stat, os_MkdirAll, query, update, emit. rewrite !bind_eq. simpl.
    destruct (os.Stat _ fs); simpl; [done|]. rewrite !bind_eq. simpl.
    by destruct (os.MkdirAll _ fs). }
  simpl. split.
  - apply (inv_serve_all (λ s, dir (self s) = filepath.Clean root)); [done| |done].
    apply root_getOrCreateMutex.
  - apply (inv_serve_all (λ s, registry_ok s ∧ registry_inj s)).
    + by intros s ?? [??].
    + apply registry_inj_getOrCreateMutex.
    + split.
      * unfold registry_ok. rewrite Hreg. apply map_Forall_empty.
      * intros c1 c2 m. by rewrite Hreg, lookup_empty.
Qed.

End driver_invariants.

(** ** [New] *)

(** X14: [New] removes and changes nothing that is on the disk.  A root path
    that exists is taken as it is, directory or not: [New] returns no error
    and leaves the disk alone.  A root path that does not exist is created,
    and when [New] then returns no error the path is a directory, made of
    directories only. *)
Theorem New_root_exists_afterwards (root : string) (fs : os.FS) :
  let s := (New root fs).2 in
  let path := filepath.Clean root in
  (∀ fi, os.Stat path fs = Ok fi → (New root fs).1 = None ∧ disk s = fs) ∧
  (∀ err, os.Stat path fs = Err err → (New root fs).1 = None →
          ∃ fi, os.Stat path (disk s) = Ok fi ∧ os.IsDir fi = true) ∧
  (∀ k n, os.nodes fs !! k = Some n → os.nodes (disk s) !! k = Some n) ∧
  (∀ k n, os.nodes (disk s) !! k = Some n →
          os.nodes fs !! k = Some n ∨ n = os.Dir).
Proof.
  simpl. unfold New, os_Stat, os_MkdirAll, query, update, emit.
  rewrite !bind_eq. simpl.
  destruct (os.Stat (filepath.Clean root) fs) as [fi|err] eqn:Hstat; simpl.
  { split_and!; [done|done|done|auto]. }
  rewrite !bind_eq. simpl.
  pose proof (MkdirAll_keeps (filepath.Clean root) fs) as (_ & Hkeep & Hnew).
  pose proof (MkdirAll_ok (filepath.Clean root) fs) as Hok.
  destruct (os.MkdirAll (filepath.Clean root) fs) as [e fs'] eqn:Hm. simpl in *.
  split_and!; [done| |done|done].
  intros _ _ ->. by apply Hok.
Qed.

(** ** Locks and failures of [Write] and [Delete] *)

Section brackets.
Context {V : Type} `{JSON V}.
Local Arguments filepath.Join : simpl never.
Local Arguments os.MkdirAll : simpl never.
Local Arguments os.WriteFile : simpl never.
Local Arguments os.Rename : simpl never.
Local Arguments os.Stat : simpl never.
Local Arguments os.RemoveAll : simpl never.

(** X3: A value that cannot be encoded: [Write] has created the collection
    directory by the time the encoder fails.  It returns the error of
    [os.MkdirAll] if there is one and the encoder's error otherwise, its
    only call into the file system is that [os.MkdirAll], and the disk is
    what [os.MkdirAll] left: no file is written, but a collection directory
    that did not exist may exist now. *)
Theorem Write_unencodable_value (C R : string) (v : V) (err : error) (s : state) :
  C ≠ "" → R ≠ "" → MarshalIndent v "" tab = Err err →
  let folder := filepath.Join [dir (self s); C] in
  let made := os.MkdirAll folder (disk s) in
  (Write C R v s).1 = Some (default err made.1) ∧
  disk (Write C R v s).2 = made.2 ∧
  ∃ m, trace (Write C R v s).2
       = trace s ++ [EvLock RegistryMu; EvUnlock RegistryMu; EvLock (Mutex m);
                     EvCall (CallMkdirAll folder); EvUnlock (Mutex m)].
Proof.
  intros HC HR Hv. simpl.
  destruct (getOrCreateMutex_frame C s) as (m & reg & next & Hm).
  unfold Write. rewrite !decide_False by done.
  rewrite bind_eq, Hm. simpl.
  unfold defer, Lock, Unlock, emit, receiver, os_MkdirAll, update.
  rewrite !bind_eq. simpl.
  destruct (os.MkdirAll _ (disk s)) as [[e1|] fs1]; simpl.
  - split_and!; [done..|]. exists m. by rewrite <-!app_assoc.
  - rewrite Hv. simpl. split_and!; [done..|]. exists m. by rewrite <-!app_assoc.
Qed.

(** X5: [Write] with valid names and [Delete] with any names work under the
    lock of their collection: they look the lock up in the registry (which
    creates it when the name is new, also for a collection that does not
    exist and for the empty name), take it, make at least one call into the
    file system, and release it on every path, failures included.  Nothing
    is called outside of the lock. *)
Theorem Write_and_Delete_hold_the_lock (C R : string) (v : V) (s : state) :
  (C ≠ "" → R ≠ "" →
   ∃ m calls,
     calls ≠ [] ∧ mutexes (self (Write C R v s).2) !! C = Some m ∧
     trace (Write C R v s).2
     = trace s ++ [EvLock RegistryMu; EvUnlock RegistryMu; EvLock (Mutex m)]
         ++ (EvCall <$> calls) ++ [EvUnlock (Mutex m)]) ∧
  (∃ m calls,
     calls ≠ [] ∧ mutexes (self (Delete C R s).2) !! C = Some m ∧
     trace (Delete C R s).2
     = trace s ++ [EvLock RegistryMu; EvUnlock RegistryMu; EvLock (Mutex m)]
         ++ (EvCall <$> calls) ++ [EvUnlock (Mutex m)]).
Proof.
  pose proof (getOrCreateMutex_registers C s) as Hreg.
  destruct (getOrCreateMutex_frame C s) as (m & reg & next & Hm).
  rewrite Hm in Hreg. simpl in Hreg.
  split.
  - intros HC HR. exists m. unfold Write. rewrite !decide_False by done.
    rewrite bind_eq, Hm. simpl.
    unfold defer, Lock, Unlock, emit, receiver, os_MkdirAll, ioutil_WriteFile,
      os_Rename, update.
    rewrite !bind_eq. simpl.
    destruct (os.MkdirAll _ (disk s)) as [[e1|] fs1]; simpl.
    { eexists [_]. split_and!; [done..|]. by rewrite <-!app_assoc. }
    destruct (MarshalIndent v "" tab) as [b|err]; simpl.
    2:{ eexists [_]. split_and!; [done..|]. by rewrite <-!app_assoc. }
    rewrite !bind_eq. simpl.
    destruct (os.WriteFile _ _ fs1) as [[e2|] fs2]; simpl.
    { eexists [_; _]. split_and!; [done..|]. by rewrite <-!app_assoc. }
    destruct (os.Rename _ _ fs2) as [e3 fs3]; simpl.
    eexists [_; _; _]. split_and!; [done..|]. by rewrite <-!app_assoc.
  - exists m. destruct (Delete_run C R s) as (m' & reg' & next' & Hrun).
    unfold Delete in *. rewrite bind_eq, Hm in *. simpl in *.
    unfold defer, Lock, Unlock, emit, receiver. rewrite !bind_eq. simpl.
    rewrite stat_run. simpl.
    assert ((probe (filepath.Join [dir (self s); filepath.Join [C; R]]) (disk s)).2 ≠ [])
      as Hcalls.
    { unfold probe. destruct (os.Stat _ _) as [|e]; [done|].
      by destruct (os.IsNotExist e). }
    destruct (probe _ (disk s)) as [[fi|err] calls]; simpl in *.
    + unfold os.IsRegular. destruct (os.IsDir fi); simpl;
        unfold os_RemoveAll, update; simpl; destruct (os.RemoveAll _ _); simpl;
        (eexists (calls ++ [_]); split_and!;
         [by destruct calls|done|by rewrite fmap_app, <-!app_assoc]).
    + exists calls. split_and!; [done..|]. by rewrite <-!app_assoc.
Qed.

(** X11: When the probe of [Delete] fails, for whatever reason, [Delete] returns
    one fixed message that names the joined collection and resource and
    drops the cause, and the disk is as it was. *)
Theorem Delete_not_found (C R : string) (err : error) (s : state) :
  let path := filepath.Join [C; R] in
  (probe (filepath.Join [dir (self s); path]) (disk s)).1 = Err err →
  (Delete C R s).1
  = Some (Errorf ("unable to find file or dir named " +:+ path)) ∧
  disk (Delete C R s).2 = disk s.
Proof.
  simpl. intros Hprobe. destruct (Delete_run C R s) as (m & reg & next & ->).
  simpl. by rewrite Hprobe.
Qed.

(** X4: A collection name that is taken by a regular file: [Write] fails in
    [os.MkdirAll] with [ENOTDIR], whatever the value, and the disk is as it
    was. *)
Theorem Write_into_a_file_fails (C R : string) (v : V) (fi : os.FileInfo) (s : state) :
  C ≠ "" → R ≠ "" →
  let folder := filepath.Join [dir (self s); C] in
  os.Stat folder (disk s) = Ok fi → os.IsDir fi = false →
  (Write C R v s).1 = Some (PathError "mkdir" folder ENOTDIR) ∧
  disk (Write C R v s).2 = disk s.
Proof.
  intros HC HR folder Hstat Hfile.
  assert (os.MkdirAll folder (disk s)
          = (Some (PathError "mkdir" folder ENOTDIR), disk s)) as Hmk
    by by apply (MkdirAll_file _ _ fi).
  destruct (getOrCreateMutex_frame C s) as (m & reg & next & Hm).
  unfold Write. rewrite !decide_False by done.
  rewrite bind_eq, Hm. simpl.
  unfold defer, Lock, Unlock, emit, receiver, os_MkdirAll, update.
  rewrite !bind_eq. simpl. fold folder. by rewrite Hmk.
Qed.

End brackets.

(** ** Directory listings *)

Section listing.
Import os.
Implicit Types (m : tree) (loc k : list string).

Lemma entry_name_spec loc k name :
  entry_name loc k = Some name ↔ k = loc ++ [name].
Proof.
  unfold entry_name. split.
  - destruct (drop (length loc) k) as [|x [|??]] eqn:Hdrop; [done| |done].
    case_decide as Htake; [|done]. intros [= <-].
    by rewrite <-(take_drop (length loc) k), Htake, Hdrop.
  - intros ->. rewrite drop_app_length, take_app_length. by rewrite decide_True.
Qed.

Lemma elem_of_entries m loc fi :
  fi ∈ entries m loc ↔
  ∃ name n, m !! (loc ++ [name]) = Some n ∧ fi = info_of name n.
Proof.
  unfold entries. rewrite list_elem_of_omap. split.
  - intros ([k n] & Hin%elem_of_map_to_list & Hf). simpl in Hf.
    destruct (entry_name loc k) as [name|] eqn:Hname; [|done].
    apply entry_name_spec in Hname as ->. injection Hf as <-. by exists name, n.
  - intros (name & n & Hlook & ->). exists (loc ++ [name], n). split.
    + by apply elem_of_map_to_list.
    + simpl. by rewrite (proj2 (entry_name_spec loc _ name) eq_refl).
Qed.

Lemma NoDup_omap_inj {A B} (f : A → option B) (l : list A) :
  NoDup l →
  (∀ x y z, x ∈ l → y ∈ l → f x = Some z → f y = Some z → x = y) →
  NoDup (omap f l).
Proof.
  induction 1 as [|x l Hx Hl IH]; intros Hinj; simpl; [constructor|].
  destruct (f x) as [z|] eqn:Hfx.
  - constructor.
    + rewrite list_elem_of_omap. intros (y & Hy & Hfy).
      apply Hx. rewrite (Hinj x y z); [done|by left|by right|done..].
    + apply IH. intros ?????. apply Hinj; by right.
  - apply IH. intros ?????. apply Hinj; by right.
Qed.

Lemma entries_names m loc :
  Name <$> entries m loc = omap (λ kn, entry_name loc kn.1) (map_to_list m).
Proof.
  unfold entries. induction (map_to_list m) as [|[k n] l IH]; [done|].
  csimpl. destruct (entry_name loc k); csimpl; by rewrite IH.
Qed.

Lemma NoDup_entries_names m loc : NoDup (Name <$> entries m loc).
Proof.
  rewrite entries_names. apply NoDup_omap_inj; [apply NoDup_map_to_list|].
  intros [k1 n1] [k2 n2] name H1%elem_of_map_to_list H2%elem_of_map_to_list.
  simpl. intros ->%entry_name_spec ->%entry_name_spec. by simplify_eq.
Qed.

Lemma elem_of_entries_names m loc name :
  name ∈ Name <$> entries m loc ↔ is_Some (m !! (loc ++ [name])).
Proof.
  rewrite list_elem_of_fmap. split.
  - intros (fi & -> & (name' & n & Hlook & ->)%elem_of_entries). by exists n.
  - intros [n Hn]. exists (info_of name n). split; [done|].
    apply elem_of_entries. by exists name, n.
Qed.

End listing.

(** ** What [Read] and [ReadAll] return *)

Section reads.
Context {V : Type} `{JSON V}.
Import filepath.
Local Arguments filepath.Join : simpl never.
Local Arguments os.Stat : simpl never.
Local Arguments os.ReadDir : simpl never.
Local Arguments os.ReadFile : simpl never.

(** [Read] with non-empty names, call by call. *)
Lemma Read_run (C R : string) (v : V) (s : state) :
  C ≠ "" → R ≠ "" →
  let record := Join [dir (self s); C; R +:+ ".json"] in
  (Read C R v s).1 =
    match (probe record (disk s)).1 with
    | Err err => (Some err, v)
    | Ok _ =>
        match os.ReadFile (record +:+ ".json") (disk s) with
        | Err err => (Some err, v)
        | Ok b => Unmarshal b v
        end
    end.
Proof.
  intros HC HR. simpl. unfold Read. rewrite !decide_False by done.
  unfold receiver. rewrite !bind_eq. simpl. rewrite stat_run. simpl.
  destruct (probe _ (disk s)) as [[fi|err] calls]; simpl; [|done].
  rewrite bind_eq. unfold ioutil_ReadFile, query. simpl.
  by destruct (os.ReadFile _ (disk s)).
Qed.

Lemma read_records_inv folder files records out s :
  (read_records folder files records s).1 = Ok out →
  ∃ datas, out = records ++ datas ∧
    Forall2 (λ file data,
               os.ReadFile (Join [folder; os.Name file]) (disk s) = Ok data)
            files datas.
Proof.
  revert records s. induction files as [|file files IH]; intros records s; simpl.
  - intros [= <-]. exists []. by rewrite app_nil_r.
  - rewrite bind_eq. unfold ioutil_ReadFile at 1 2. unfold query. simpl.
    destruct (os.ReadFile (Join [folder; os.Name file]) (disk s)) as [data|err]
      eqn:Hfile; [|done].
    intros (datas & -> & Hrest)%IH. simpl in Hrest.
    exists (data :: datas). rewrite <-app_assoc. split; [done|].
    by constructor.
Qed.

Lemma ReadAll_ok_intro (C : string) (blobs : list string) (s : state) :
  C ≠ "" →
  (∃ fi, (probe (Join [dir (self s); C]) (disk s)).1 = Ok fi) ∧
  (∃ files, os.ReadDir (Join [dir (self s); C]) (disk s) = Ok files ∧
     Forall2 (λ file data,
                os.ReadFile (Join [Join [dir (self s); C]; os.Name file]) (disk s)
                = Ok data)
             files blobs) →
  (ReadAll C s).1 = Ok blobs.
Proof.
  intros HC [[fi Hfi] (files & Hdir & Hall)]. rewrite ReadAll_run by done.
  destruct (probe _ (disk s)) as [[fi'|err] calls]; simpl in *; [|done].
  rewrite Hdir. simpl.
  by destruct (read_records_ok _ files blobs []
                 (log [EvCall (CallReadDir (Join [dir (self s); C]))]
                      (log (EvCall <$> calls) s)) Hall)
    as [-> _].
Qed.

(** X10: [ReadAll] is all or nothing: it returns blobs exactly when the probe
    found the collection, the directory could be listed and every single
    entry could be read as a file; the blobs are then the contents of the
    entries, one per entry and in the order of the listing.  One entry that
    cannot be read, such as a sub-directory, makes the whole call fail. *)
Theorem ReadAll_all_or_nothing (C : string) (blobs : list string) (s : state) :
  C ≠ "" →
  let folder := Join [dir (self s); C] in
  (ReadAll C s).1 = Ok blobs ↔
  (∃ fi, (probe folder (disk s)).1 = Ok fi) ∧
  ∃ files, os.ReadDir folder (disk s) = Ok files ∧
    Forall2 (λ file data,
               os.ReadFile (Join [folder; os.Name file]) (disk s) = Ok data)
            files blobs.
Proof.
  intros HC folder. split; [|by apply ReadAll_ok_intro].
  rewrite ReadAll_run by done. fold folder.
  destruct (probe folder (disk s)) as [[fi|err] calls]; simpl; [|done].
  destruct (os.ReadDir folder (disk s)) as [files|err]; simpl; [|done].
  intros (datas & -> & Hall)%read_records_inv. split; [by eexists|].
  by exists files.
Qed.

(** X8: [Read] of a resource that is not there: when neither the file of the
    resource nor that path with one more [.json] exists, [Read] returns the
    error of the second probe, which names the path with the doubled
    suffix, and hands the target back untouched. *)
Theorem Read_of_a_missing_resource (C R : string) (v : V) (s : state) :
  C ≠ "" → R ≠ "" →
  let record := Join [dir (self s); C; R +:+ ".json"] in
  os.Stat record (disk s) = Err (PathError "stat" record ENOENT) →
  os.Stat (record +:+ ".json") (disk s)
  = Err (PathError "stat" (record +:+ ".json") ENOENT) →
  (Read C R v s).1 = (Some (PathError "stat" (record +:+ ".json") ENOENT), v) ∧
  disk (Read C R v s).2 = disk s.
Proof.
  intros HC HR record Hfirst Hsecond. split.
  - rewrite Read_run by done. fold record. unfold probe.
    rewrite Hfirst. simpl. by rewrite Hsecond.
  - by destruct (reads_only_Read C R v s) as [evs ->].
Qed.

End reads.

(** ** Writing a collection and reading it back *)

Section collection.
Context {V : Type} `{JSON V}.
Import filepath.
Local Arguments filepath.Join : simpl never.
Local Arguments os.Stat : simpl never.
Local Arguments os.ReadDir : simpl never.
Local Arguments os.ReadFile : simpl never.

Lemma Write_step (C R : string) (v : V) (b : string) root files (s : state) :
  is_name C → R ≠ "" → sep_free R → MarshalIndent v "" tab = Ok b →
  os.name_ok C → os.name_ok (R +:+ ".json" +:+ ".tmp") →
  os.refused (Join [Join [dir (self s); C]; R +:+ ".json"] +:+ ".tmp") = None →
  collection_is root C files s →
  (Write C R v s).1 = None ∧
  collection_is root C (<[R +:+ ".json" := b +:+ newline]> files) (Write C R v s).2.
Proof.
  intros HC HR HRfree Hb HCshort HRshort Href
    (Hroot & Hwalk & Hloc & _ & Hfiles & Hnames).
  set (loc := root ++ [C]) in *.
  destruct (Write_tree C R v b s root) as (Hok & Hdir & Hdisk); try done.
  { fold loc. rewrite Hfiles. by destruct (files !! _). }
  { fold loc. rewrite Hfiles. by destruct (files !! _). }
  split; [done|]. fold loc in Hdisk.
  set (fnl := loc ++ [R +:+ ".json"]) in *.
  set (tmp := loc ++ [R +:+ ".json" +:+ ".tmp"]) in *.
  assert (fnl ≠ loc) as Hfl by apply snoc_ne.
  assert (tmp ≠ loc) as Htl by apply snoc_ne.
  pose proof Hwalk as [Hrootdir Hrootanc]%walk_inr.
  assert (∀ x, ¬ loc ++ [x] `prefix_of` root) as Hnpre.
  { intros x Hpre%prefix_length. unfold loc in Hpre.
    rewrite !length_app in Hpre. simpl in Hpre. lia. }
  assert (∀ x, loc ++ [x] ≠ root) as Hnroot.
  { intros x E. apply (Hnpre x). by rewrite E. }
  assert (loc ≠ root) as Hlr by apply snoc_ne.
  unfold collection_is. rewrite Hdisk, Hdir. simpl. fold loc. split_and!.
  - by rewrite resolve_cwd.
  - apply walk_inr. split.
    + rewrite lookup_insert_ne, lookup_delete_ne, lookup_insert_ne; [done|..];
        [done|apply Hnroot|apply Hnroot].
    + apply ancestors_ok_insert; [|right; left; apply Hnpre].
      apply ancestors_ok_delete; [|left; apply Hnpre].
      apply ancestors_ok_insert; [done|by left].
  - right. rewrite lookup_insert_ne, lookup_delete_ne by done. apply lookup_insert_eq.
  - intros _. rewrite lookup_insert_ne, lookup_delete_ne by done. apply lookup_insert_eq.
  - intros name. destruct (decide (name = R +:+ ".json")) as [->|Hne].
    { fold fnl. by rewrite !lookup_insert_eq. }
    rewrite (lookup_insert_ne files) by done.
    rewrite lookup_insert_ne by (unfold fnl; intros E%app_inv_head; congruence).
    destruct (decide (name = R +:+ ".json" +:+ ".tmp")) as [->|Hnt].
    { fold tmp. rewrite lookup_delete_eq.
      destruct (files !! _) as [d|] eqn:Hf; [|done]. exfalso.
      destruct (Hnames _ (mk_is_Some _ _ Hf)) as (r & E & _).
      symmetry in E. rewrite <-str_app_assoc in E. by apply json_ne_tmp in E. }
    rewrite lookup_delete_ne by (unfold tmp; intros E%app_inv_head; congruence).
    rewrite lookup_insert_ne by (symmetry; apply snoc_ne). apply Hfiles.
  - intros name. rewrite lookup_insert_is_Some. intros [<-|[_ Hin]].
    + by exists R.
    + by apply Hnames.
Qed.

Lemma write_all_snoc (C : string) (records : list (string * V)) rv (s : state) :
  write_all C (records ++ [rv]) s
  = ((write_all C records s).1 ++ [(Write C rv.1 rv.2 (write_all C records s).2).1],
     (Write C rv.1 rv.2 (write_all C records s).2).2).
Proof. unfold write_all. by rewrite foldl_snoc. Qed.

(** The files a list of records makes: one per resource, holding the
    encoding and a newline. *)
Local Abbreviation files_of enc records :=
  (list_to_map ((λ rv : string * V, (rv.1 +:+ ".json", enc rv.2 +:+ newline))
                  <$> records) : gmap string string).

Lemma json_names_fst (enc : V → string) (records : list (string * V)) :
  ((λ rv : string * V, (rv.1 +:+ ".json", enc rv.2 +:+ newline)) <$> records).*1
  = (λ rv : string * V, rv.1 +:+ ".json") <$> records.
Proof. by rewrite <-list_fmap_compose. Qed.

Lemma NoDup_json_names (records : list (string * V)) :
  NoDup records.*1 → NoDup ((λ rv : string * V, rv.1 +:+ ".json") <$> records).
Proof.
  intros Hnd.
  replace ((λ rv : string * V, rv.1 +:+ ".json") <$> records)
    with ((λ r, r +:+ ".json") <$> records.*1) by by rewrite <-list_fmap_compose.
  apply NoDup_fmap_2_strong; [|done]. intros x y _ _ E.
  by apply str_app_cancel_r in E.
Qed.

Lemma write_all_dir (C : string) (records : list (string * V)) (s : state) :
  dir (self (write_all C records s).2) = dir (self s).
Proof.
  induction records as [|rv records IH] using rev_ind; [done|].
  rewrite write_all_snoc. simpl.
  apply (inv_Write (λ s', dir (self s') = dir (self s))); [done| |done].
  intros c. apply root_getOrCreateMutex.
Qed.

Lemma write_all_collection (C : string) (enc : V → string)
    (records : list (string * V)) root (s : state) :
  is_name C → os.name_ok C → NoDup records.*1 →
  Forall (λ rv, rv.1 ≠ "" ∧ sep_free rv.1) records →
  Forall (λ rv, os.name_ok (rv.1 +:+ ".json" +:+ ".tmp") ∧
                os.refused (Join [Join [dir (self s); C]; rv.1 +:+ ".json"]
                            +:+ ".tmp") = None) records →
  (∀ rv, rv ∈ records → MarshalIndent rv.2 "" tab = Ok (enc rv.2)) →
  collection_is root C ∅ s →
  Forall (λ e, e = None) (write_all C records s).1 ∧
  length (write_all C records s).1 = length records ∧
  collection_is root C (files_of enc records) (write_all C records s).2.
Proof.
  intros HC HCshort. induction records as [|rv records IH] using rev_ind;
    intros Hnd Hnames Hlimits Henc Hinit.
  { by split_and!. }
  rewrite fmap_app in Hnd. apply NoDup_app in Hnd as (Hnd & Hfresh & _).
  apply Forall_app in Hnames as [Hnames [[Hne Hfree] _]%Forall_cons].
  apply Forall_app in Hlimits as [Hlimits [[Hshort Href] _]%Forall_cons].
  destruct IH as (Hoks & Hlen & Hcoll); [done|done|done| |done|].
  { intros rv' Hin. apply Henc. apply elem_of_app. by left. }
  rewrite <-(write_all_dir C records s) in Href.
  destruct (Write_step C rv.1 rv.2 (enc rv.2) root _ _ HC Hne Hfree
              (Henc rv ltac:(apply elem_of_app; right; by left))
              HCshort Hshort Href Hcoll)
    as [Hok Hcoll'].
  rewrite write_all_snoc. simpl. split_and!.
  - apply Forall_app. split; [done|]. by repeat constructor.
  - rewrite !length_app, Hlen. done.
  - rewrite fmap_app. simpl. rewrite list_to_map_snoc; [done|].
    rewrite json_names_fst. intros (rv' & E & Hin)%list_elem_of_fmap.
    apply str_app_cancel_r in E. apply (Hfresh rv'.1).
    + by apply list_elem_of_fmap_2.
    + simpl. rewrite <-E. by left.
Qed.

(** X1: Distinct resources written into a collection that held nothing, and
    read back at once.  The collection name and the resource names are
    plain names, the values can all be encoded, the root directory exists,
    and the names and paths are within the limits of the file system: the
    collection name and the name of every temporary file have at most
    [NAME_MAX] bytes, and the path of every temporary file has no NUL byte
    and fewer than [PATH_MAX] bytes.  Then every [Write] returns no error,
    every resource has its file with its encoding and a newline in it, and
    [ReadAll] returns, in some order, exactly these contents: one blob per
    record. *)
Theorem ReadAll_returns_what_was_written (C : string) (enc : V → string)
    (records : list (string * V)) (fi : os.FileInfo) (s : state) :
  is_name C → records ≠ [] → NoDup records.*1 →
  Forall (λ rv, rv.1 ≠ "" ∧ sep_free rv.1) records →
  (∀ rv, rv ∈ records → MarshalIndent rv.2 "" tab = Ok (enc rv.2)) →
  os.Stat (dir (self s)) (disk s) = Ok fi → os.IsDir fi = true →
  let folder := Join [dir (self s); C] in
  os.name_ok C →
  Forall (λ rv, os.name_ok (rv.1 +:+ ".json" +:+ ".tmp") ∧
                os.refused (Join [folder; rv.1 +:+ ".json"] +:+ ".tmp") = None)
         records →
  (∀ loc, os.resolve (disk s) folder = Some loc →
          (os.nodes (disk s) !! loc = None ∨ os.nodes (disk s) !! loc = Some os.Dir) ∧
          ∀ name, os.nodes (disk s) !! (loc ++ [name]) = None) →
  let written := write_all C records s in
  Forall (λ e, e = None) written.1 ∧
  length written.1 = length records ∧
  (∀ rv, rv ∈ records →
         os.ReadFile (Join [folder; rv.1 +:+ ".json"]) (disk written.2)
         = Ok (enc rv.2 +:+ newline)) ∧
  ∃ blobs, (ReadAll C written.2).1 = Ok blobs ∧
           length blobs = length records ∧
           blobs ≡ₚ (λ rv, enc rv.2 +:+ newline) <$> records.
Proof.
  intros HC Hne Hnd Hnames Henc Hstat Hisdir folder HCshort Hlimits Hempty written.
  apply Stat_inv in Hstat as (root & n & Hroot & Hwalk & Hn).
  rewrite Hisdir in Hn. destruct n as [|?]; [clear Hn|done].
  pose proof (resolve_not_empty _ _ _ Hroot) as Hd.
  pose proof HC as (HCne & _)%is_name_spec.
  set (loc := root ++ [C]).
  destruct (Hempty loc) as [Hloc Hnone]; [by apply resolve_Join_2|].
  assert (collection_is root C ∅ s) as Hinit.
  { split_and!; [done..| |].
    - intros name. by rewrite lookup_empty, Hnone.
    - intros name [? Hin]. by rewrite lookup_empty in Hin. }
  destruct (write_all_collection C enc records root s HC HCshort Hnd Hnames Hlimits
              Henc Hinit)
    as (Hoks & Hlen & Hcoll).
  fold written in Hoks, Hlen, Hcoll.
  set (pairs := (λ rv : string * V, (rv.1 +:+ ".json", enc rv.2 +:+ newline))
                  <$> records) in *.
  set (F := list_to_map pairs : gmap string string) in *.
  destruct Hcoll as (Hroot' & Hwalk' & _ & Hdir' & Hfiles' & Hnames').
  assert (dir (self written.2) = dir (self s)) as Hsame by apply write_all_dir.
  rewrite Hsame in Hroot'.
  assert (NoDup pairs.*1) as Hndp.
  { unfold pairs. rewrite json_names_fst. by apply NoDup_json_names. }
  assert (∀ rv, rv ∈ records → F !! (rv.1 +:+ ".json") = Some (enc rv.2 +:+ newline))
    as HF.
  { intros rv Hin. apply elem_of_list_to_map_1; [done|].
    unfold pairs. by apply (list_elem_of_fmap_2
      (λ rv : string * V, (rv.1 +:+ ".json", enc rv.2 +:+ newline))). }
  assert (F ≠ ∅) as HFne.
  { destruct records as [|rv rest]; [done|]. intros E.
    pose proof (HF rv ltac:(by left)) as Hrv. by rewrite E, lookup_empty in Hrv. }
  specialize (Hdir' HFne). fold loc in Hdir', Hfiles'.
  assert (os.walk (os.nodes (disk written.2)) [] loc = inr os.Dir) as Hwloc.
  { apply walk_inr. split; [exact Hdir'|].
    apply ancestors_ok_snoc. by apply walk_inr in Hwalk' as [??]. }
  assert (∀ name data, F !! name = Some data →
            os.ReadFile (Join [folder; name]) (disk written.2) = Ok data) as Hread.
  { intros name data Hname.
    destruct (Hnames' name (mk_is_Some _ _ Hname)) as (r & -> & Hr).
    unfold os.ReadFile, os.locate, folder.
    rewrite Join_Join, (resolve_Join_3 _ _ _ _ root) by
      (done || by apply is_name_json).
    replace (root ++ [C; r +:+ ".json"]) with (loc ++ [r +:+ ".json"])
      by (unfold loc; by rewrite <-app_assoc).
    rewrite (walk_snoc _ loc) by done. by rewrite Hfiles', Hname. }
  split_and!; [done|done| |].
  { intros rv Hin. by apply Hread, HF. }
  set (listed := merge_sort os.by_name (os.entries (os.nodes (disk written.2)) loc)).
  set (content := λ name : string, default "" (F !! name)).
  exists (content <$> (os.Name <$> listed)).
  assert (os.Name <$> listed ≡ₚ (λ rv : string * V, rv.1 +:+ ".json") <$> records)
    as Hperm.
  { unfold listed. rewrite merge_sort_Permutation.
    apply NoDup_Permutation.
    - apply NoDup_entries_names.
    - by apply NoDup_json_names.
    - intros name. rewrite elem_of_entries_names, Hfiles', fmap_is_Some.
      rewrite <-(json_names_fst enc). fold pairs.
      split.
      + intros [data Hdata]. destruct (decide (name ∈ pairs.*1)) as [|Hnot]; [done|].
        apply not_elem_of_list_to_map in Hnot. unfold F in Hdata. congruence.
      + intros Hin. destruct (F !! name) as [data|] eqn:E; [by eexists|].
        by apply not_elem_of_list_to_map in E. }
  assert (content <$> ((λ rv : string * V, rv.1 +:+ ".json") <$> records)
          = (λ rv : string * V, enc rv.2 +:+ newline) <$> records) as Hcontent.
  { rewrite <-list_fmap_compose. apply Forall_fmap_ext, Forall_forall.
    intros rv Hin. unfold content. simpl. by rewrite (HF rv Hin). }
  split_and!.
  - apply ReadAll_ok_intro; [done|]. rewrite Hsame. fold folder.
    assert (os.resolve (disk written.2) folder = Some loc) as Hrfolder
      by by apply resolve_Join_2.
    split.
    + unfold probe.
      destruct (Stat_found folder (disk written.2) loc os.Dir) as (fi' & -> & _);
        [done..|]. by eexists.
    + exists listed. split.
      * unfold os.ReadDir, os.locate. by rewrite Hrfolder, Hwloc.
      * rewrite <-list_fmap_compose. apply Forall2_fmap_r, Forall_Forall2_diag.
        apply Forall_forall. intros file Hfile. simpl.
        assert (file ∈ os.entries (os.nodes (disk written.2)) loc) as Hentry.
        { unfold listed in Hfile. by rewrite merge_sort_Permutation in Hfile. }
        apply elem_of_entries in Hentry as (name & nd & Hlook & ->). simpl.
        rewrite Hfiles' in Hlook. unfold content.
        destruct (F !! name) as [data|] eqn:Hname; [|done]. simpl.
        by apply Hread.
  - by rewrite length_fmap, Hperm, length_fmap.
  - by rewrite Hperm, Hcontent.
Qed.

End collection.

(** ** The file [Read] opens, and more on [Delete] and [Write] *)

Section suffixes.
Context {V : Type} `{JSON V}.
Import filepath.
Local Arguments filepath.Join : simpl never.
Local Arguments os.Stat : simpl never.
Local Arguments os.ReadFile : simpl never.
Local Arguments os.RemoveAll : simpl never.
Local Arguments os.MkdirAll : simpl never.
Local Arguments os.WriteFile : simpl never.
Local Arguments os.Rename : simpl never.

Lemma Write_ok_ReadFile (C R b : string) (v : V) (s : state) :
  C ≠ "" → R ≠ "" → MarshalIndent v "" tab = Ok b →
  (Write C R v s).1 = None →
  os.ReadFile (Join [Join [dir (self s); C]; R +:+ ".json"]) (disk (Write C R v s).2)
  = Ok (b +:+ newline).
Proof.
  intros HC HR Hb.
  destruct (Write_run C R v b s HC HR Hb) as (m & reg & next & _ & ->).
  destruct (os.MkdirAll _ (disk s)) as [[e1|] fs1] eqn:H1; simpl; [done|].
  destruct (os.WriteFile _ _ fs1) as [[e2|] fs2] eqn:H2; simpl; [done|].
  destruct (os.Rename _ _ fs2) as [e3 fs3] eqn:H3; simpl.
  intros ->. by eapply WriteFile_Rename_ReadFile.
Qed.

(** X6: [Read] of a resource whose file exists never looks into that file: it
    opens the path of the file with one more [.json] behind it, and
    returns what [json.Unmarshal] makes of that file, or the error of
    opening it with the target untouched. *)
Theorem Read_opens_the_double_suffix (C R data : string) (v : V) (s : state) :
  dir (self s) ≠ "" → C ≠ "" → R ≠ "" →
  let file := Join [Join [dir (self s); C]; R +:+ ".json"] in
  os.ReadFile file (disk s) = Ok data →
  (Read C R v s).1 =
    match os.ReadFile (file +:+ ".json") (disk s) with
    | Ok b => Unmarshal b v
    | Err err => (Some err, v)
    end.
Proof.
  intros Hd HC HR file Hfile. rewrite Read_run by done.
  unfold file in *. rewrite Join_Join in * by done.
  apply ReadFile_Stat in Hfile as (fi & Hstat & _).
  unfold probe. rewrite Hstat. simpl. by destruct (os.ReadFile _ _).
Qed.

(** X7: The round trip the code has: what [Write] stores under the resource
    name [R.json] is what [Read] returns for the resource name [R]. *)
Theorem Read_returns_the_suffixed_resource (C R b : string) (v out : V) (s : state) :
  dir (self s) ≠ "" → is_name C → R ≠ "" → sep_free R →
  MarshalIndent v "" tab = Ok b →
  (Write C (R +:+ ".json") v s).1 = None →
  (Read C R out (Write C (R +:+ ".json") v s).2).1 = Unmarshal (b +:+ newline) out.
Proof.
  intros Hd HC HR HRfree Hb Hok.
  pose proof HC as (HCne & _)%is_name_spec.
  pose proof (is_name_json R HRfree) as Hjson.
  pose proof (is_name_suffix _ ".json" Hjson I) as Hjson2.
  assert (R +:+ ".json" ≠ "") as HRj by by apply is_name_spec in Hjson as [? _].
  pose proof (Write_ok_ReadFile C (R +:+ ".json") b v s HCne HRj Hb Hok) as Hfile.
  set (s' := (Write C (R +:+ ".json") v s).2) in *.
  assert (dir (self s') = dir (self s)) as Hsame.
  { apply (inv_Write (λ st, dir (self st) = dir (self s))); [done| |done].
    intros c. apply root_getOrCreateMutex. }
  rewrite Read_run, Hsame by done.
  rewrite Join_Join in Hfile by done.
  rewrite Join_3_suffix by done. rewrite Hfile.
  destruct (resolve_some (disk s') _ Hd) as [root Hroot].
  apply ReadFile_inv in Hfile as Hinv. destruct Hinv as (floc & Hfloc & Hwalk).
  rewrite (resolve_Join_3 _ _ _ _ root) in Hfloc by done. injection Hfloc as <-.
  apply walk_inr in Hwalk as [Hlook Hanc].
  replace (root ++ [C; (R +:+ ".json") +:+ ".json"])
    with ((root ++ [C]) ++ [(R +:+ ".json") +:+ ".json"]) in Hanc
    by by rewrite <-app_assoc.
  apply ancestors_ok_snoc in Hanc as [Hanc Hdir].
  assert (os.walk (os.nodes (disk s')) [] (root ++ [C]) = inr os.Dir) as HwC
    by (apply walk_inr; split; assumption).
  unfold probe.
  destruct (os.Stat (Join [dir (self s); C; R +:+ ".json"]) (disk s')) as [fi|err]
    eqn:Hstat; [done|].
  assert (err = PathError "stat" (Join [dir (self s); C; R +:+ ".json"]) ENOENT) as ->.
  { unfold os.Stat, os.locate in Hstat.
    rewrite (resolve_Join_3 _ _ _ _ root) in Hstat by done.
    replace (root ++ [C; R +:+ ".json"]) with ((root ++ [C]) ++ [R +:+ ".json"])
      in Hstat by by rewrite <-app_assoc.
    rewrite (walk_snoc _ (root ++ [C])) in Hstat by exact HwC.
    destruct (os.nodes (disk s') !! ((root ++ [C]) ++ [R +:+ ".json"])); [done|].
    by injection Hstat as <-. }
  simpl. rewrite Join_3_suffix by done.
  by destruct (ReadFile_Stat _ _ _ Hfile) as (fi & -> & _).
Qed.

(** X12: [Delete] with the file name of a resource instead of its bare name:
    when the file of resource [R] exists and nothing is called [R.json.json],
    [Delete(C, "R.json")] returns no error and removes nothing. *)
Theorem Delete_with_extension_is_silent (C R data : string) (s : state) :
  dir (self s) ≠ "" → is_name C → is_name R →
  let file := Join [Join [dir (self s); C]; R +:+ ".json"] in
  os.ReadFile file (disk s) = Ok data →
  os.Stat (file +:+ ".json") (disk s)
  = Err (PathError "stat" (file +:+ ".json") ENOENT) →
  (Delete C (R +:+ ".json") s).1 = None ∧
  disk (Delete C (R +:+ ".json") s).2 = disk s.
Proof.
  intros Hd HC HR file Hfile Hnone.
  pose proof HR as (_ & _ & _ & HRfree)%is_name_spec.
  pose proof (is_name_json R HRfree) as Hjson.
  pose proof (is_name_suffix _ ".json" Hjson I) as Hjson2.
  destruct (Delete_run C (R +:+ ".json") s) as (m & reg & next & ->).
  rewrite Join_nested by done. unfold file in *. rewrite Join_Join in * by done.
  apply ReadFile_Stat in Hfile as (fi & Hstat & Hfi).
  unfold probe. rewrite Hstat. simpl. rewrite Hfi.
  rewrite RemoveAll_missing; [done| |].
  - rewrite Join_3_suffix, final_element_Join_3 by done.
    apply is_name_spec in Hjson2. tauto.
  - unfold os.Stat in Hnone.
    destruct (os.locate (disk s) _) as [e|[loc n]]; [|done]. congruence.
Qed.

(** X13: [Delete] prefers a directory: when the collection holds a directory of
    the resource's name, [Delete] removes that directory with everything
    below it, and the file of the resource stays as it is. *)
Theorem Delete_prefers_the_directory (C R : string) (fi : os.FileInfo) (s : state) :
  dir (self s) ≠ "" → is_name C → is_name R →
  let folder := Join [dir (self s); C; R] in
  let file := Join [Join [dir (self s); C]; R +:+ ".json"] in
  os.Stat folder (disk s) = Ok fi → os.IsDir fi = true →
  let s' := (Delete C R s).2 in
  (Delete C R s).1 = None ∧
  os.Stat folder (disk s') = Err (PathError "stat" folder ENOENT) ∧
  os.ReadFile file (disk s') = os.ReadFile file (disk s) ∧
  ∃ loc, os.resolve (disk s) folder = Some loc ∧
         os.nodes (disk s') = os.prune loc (os.nodes (disk s)).
Proof.
  intros Hd HC HR folder file Hstat Hdir.
  destruct (resolve_some (disk s) _ Hd) as [root Hroot].
  pose proof HR as (_ & HRdot & HRdd & HRfree)%is_name_spec.
  assert (os.resolve (disk s) folder = Some (root ++ [C; R])) as Hres
    by by apply resolve_Join_3.
  apply Stat_inv in Hstat as Hinv. destruct Hinv as (loc & n & Hloc & Hwalk & Hn).
  rewrite Hres in Hloc. injection Hloc as <-.
  rewrite Hdir in Hn. destruct n as [|?]; [clear Hn|done].
  pose proof Hwalk as [Hlook Hanc]%walk_inr.
  destruct (Delete_run C R s) as (m & reg & next & Hrun).
  rewrite Join_nested in Hrun by done. simpl in Hrun. fold folder in Hrun.
  unfold probe in Hrun. rewrite Hstat in Hrun. simpl in Hrun. rewrite Hdir in Hrun.
  rewrite (RemoveAll_ok folder (disk s) (root ++ [C; R]) os.Dir) in Hrun.
  2:{ rewrite (locate_eq _ _ (root ++ [C; R])) by done. by rewrite Hwalk. }
  2:{ by destruct root. }
  2,3: unfold folder; by rewrite final_element_Join_3.
  simpl in Hrun. rewrite Hrun. simpl. split_and!.
  - done.
  - apply (Stat_missing _ _ (root ++ [C; R])); [by rewrite resolve_cwd|]. simpl.
    apply walk_pruned; [by destruct root|done].
  - apply (ReadFile_walk _ _ _ (root ++ [C; R +:+ ".json"])).
    + unfold file. rewrite Join_Join by done.
      apply resolve_Join_3; [done..|]. by apply is_name_json.
    + rewrite resolve_cwd. unfold file. rewrite Join_Join by done.
      apply resolve_Join_3; [done..|]. by apply is_name_json.
    + simpl. apply walk_prune.
      replace (root ++ [C; R]) with ((root ++ [C]) ++ [R]) by by rewrite <-app_assoc.
      replace (root ++ [C; R +:+ ".json"]) with ((root ++ [C]) ++ [R +:+ ".json"])
        by by rewrite <-app_assoc.
      apply not_prefix_sibling. intros E. apply (f_equal String.length) in E.
      rewrite str_length_app in E. simpl in E. lia.
  - by exists (root ++ [C; R]).
Qed.

(** X2: A successful [Write] into a store whose root exists changes three
    locations of the tree and no other: the collection directory is a
    directory, the file of the resource holds the encoding and a newline,
    and the temporary file is gone. *)
Theorem Write_changes_only_its_file (C R b : string) (v : V) (fi : os.FileInfo)
    (s : state) :
  is_name C → R ≠ "" → sep_free R → MarshalIndent v "" tab = Ok b →
  os.Stat (dir (self s)) (disk s) = Ok fi → os.IsDir fi = true →
  (Write C R v s).1 = None →
  let s' := (Write C R v s).2 in
  let file := Join [Join [dir (self s); C]; R +:+ ".json"] in
  os.Stat (file +:+ ".tmp") (disk s') = Err (PathError "stat" (file +:+ ".tmp") ENOENT) ∧
  ∃ loc, os.resolve (disk s) (Join [dir (self s); C]) = Some loc ∧
    os.nodes (disk s') !! loc = Some os.Dir ∧
    os.nodes (disk s') !! (loc ++ [R +:+ ".json"]) = Some (os.File (b +:+ newline)) ∧
    os.nodes (disk s') !! (loc ++ [R +:+ ".json" +:+ ".tmp"]) = None ∧
    ∀ k, k ≠ loc → k ≠ loc ++ [R +:+ ".json"] →
         k ≠ loc ++ [R +:+ ".json" +:+ ".tmp"] →
         os.nodes (disk s') !! k = os.nodes (disk s) !! k.
Proof.
  intros HC HR HRfree Hb Hstat Hisdir Hok s' file.
  apply Stat_inv in Hstat as (root & n & Hroot & Hwalk & Hn).
  rewrite Hisdir in Hn. destruct n as [|?]; [clear Hn|done].
  pose proof (resolve_not_empty _ _ _ Hroot) as Hd.
  pose proof HC as (HCne & _)%is_name_spec.
  pose proof (is_name_json R HRfree) as Hjson.
  assert (is_name ((R +:+ ".json") +:+ ".tmp")) as Htmpname
    by by apply is_name_suffix.
  set (loc := root ++ [C]).
  set (fnl := loc ++ [R +:+ ".json"]).
  set (tmp := loc ++ [R +:+ ".json" +:+ ".tmp"]).
  set (folder := Join [dir (self s); C]) in *.
  assert (os.resolve (disk s) folder = Some loc) as Hrfolder
    by by apply resolve_Join_2.
  assert (os.resolve (disk s) file = Some fnl) as Hrfnl.
  { unfold file, folder. rewrite Join_Join, (resolve_Join_3 _ _ _ _ root) by done.
    unfold fnl, loc. by rewrite <-app_assoc. }
  assert (os.resolve (disk s) (file +:+ ".tmp") = Some tmp) as Hrtmp.
  { unfold file, folder.
    rewrite Join_Join, Join_3_suffix, (resolve_Join_3 _ _ _ _ root)
      by done.
    unfold tmp, loc. by rewrite <-app_assoc, str_app_assoc. }
  assert (fnl ≠ tmp) as Hft.
  { unfold fnl, tmp. intros E%app_inv_head. injection E as E.
    apply (f_equal String.length) in E. rewrite !str_length_app in E. simpl in E. lia. }
  assert (tmp ≠ loc) as Htl by apply snoc_ne.
  assert (fnl ≠ loc) as Hfl by apply snoc_ne.
  (* the three calls succeeded *)
  destruct (Write_run C R v b s HCne HR Hb) as (mx & reg & next & _ & Hrun).
  fold folder in Hrun. fold file in Hrun.
  destruct (os.MkdirAll folder (disk s)) as [[e1|] fs1] eqn:Hmk; simpl in Hrun.
  { rewrite Hrun in Hok. simpl in Hok. done. }
  destruct (os.WriteFile (file +:+ ".tmp") (b +:+ newline) fs1) as [[e2|] fs2] eqn:Hwr;
    simpl in Hrun; [rewrite Hrun in Hok; simpl in Hok; done|].
  destruct (os.Rename (file +:+ ".tmp") file fs2) as [e3 fs3] eqn:Hrn; simpl in Hrun.
  assert (e3 = None) as -> by (rewrite Hrun in Hok; exact Hok).
  clear Hok.
  assert (os.nodes (disk s) !! loc = None ∨ os.nodes (disk s) !! loc = Some os.Dir)
    as Hloc.
  { apply (MkdirAll_child_inv folder); [done..|]. by rewrite Hmk. }
  assert (os.nodes (disk s) !! loc = None → os.refused folder = None ∧ os.name_ok C)
    as Hlimits.
  { intros Hnone. apply (MkdirAll_child_limits folder (disk s) root C); [done..| |done].
    by rewrite Hmk. }
  rewrite (MkdirAll_child _ _ root C) in Hmk by done. fold loc in Hmk.
  set (m1 := match os.nodes (disk s) !! loc with
             | Some _ => os.nodes (disk s)
             | None => <[loc := os.Dir]> (os.nodes (disk s))
             end) in *.
  injection Hmk as <-.
  assert (∀ k, k ≠ loc → m1 !! k = os.nodes (disk s) !! k) as Hm1.
  { intros k Hk. unfold m1. destruct (os.nodes (disk s) !! loc); [done|].
    by rewrite lookup_insert_ne. }
  destruct (WriteFile_ok_limits (file +:+ ".tmp") (b +:+ newline)
              (os.mkFS (os.cwd (disk s)) m1) tmp) as [Hreftmp Hshorttmp];
    [by rewrite Hwr|by rewrite resolve_cwd|].
  unfold tmp in Hshorttmp. rewrite base_snoc in Hshorttmp.
  apply WriteFile_ok in Hwr as (tl & Htl' & _ & Htmpdir & ->).
  rewrite resolve_cwd, Hrtmp in Htl'. injection Htl' as <-. simpl in Htmpdir, Hrn.
  rewrite Hm1 in Htmpdir by done.
  assert (os.nodes (disk s) !! fnl ≠ Some os.Dir) as Hfnl.
  { intros E.
    apply (Rename_ok_inv (file +:+ ".tmp") file
             (os.mkFS (os.cwd (disk s)) (<[tmp := os.File (b +:+ newline)]> m1))
             tmp fnl); [by rewrite resolve_cwd|by rewrite resolve_cwd|done| |].
    - by rewrite Hrn.
    - simpl. by rewrite lookup_insert_ne, Hm1. }
  destruct (Write_tree C R v b s root) as (_ & _ & Hdisk); try done.
  { intros Hnone. by destruct (Hlimits Hnone). }
  fold loc fnl tmp s' in Hdisk. rewrite Hdisk. simpl. split.
  - apply (Stat_missing _ _ tmp); [by rewrite resolve_cwd|]. simpl.
    rewrite walk_ok.
    + by rewrite lookup_insert_ne, lookup_delete_eq.
    + unfold tmp. apply ancestors_ok_snoc. fold tmp. split.
      * apply ancestors_ok_insert; [|right; left; intros Hp%prefix_length;
          unfold fnl in Hp; rewrite length_app in Hp; simpl in Hp; lia].
        apply ancestors_ok_delete; [|left; intros Hp%prefix_length;
          unfold tmp in Hp; rewrite length_app in Hp; simpl in Hp; lia].
        apply ancestors_ok_insert; [|auto]. apply ancestors_ok_snoc.
        apply walk_inr in Hwalk as [??]. by split.
      * rewrite lookup_insert_ne, lookup_delete_ne by done. apply lookup_insert_eq.
  - exists loc. split_and!; [done| | | |].
    + rewrite lookup_insert_ne, lookup_delete_ne by done. apply lookup_insert_eq.
    + apply lookup_insert_eq.
    + by rewrite lookup_insert_ne, lookup_delete_eq.
    + intros k Hk1 Hk2 Hk3.
      by rewrite lookup_insert_ne, lookup_delete_ne, lookup_insert_ne.
Qed.

(** X16: A resource name that is too long for its temporary file.  The
    collection and the resource are plain names, the value can be encoded,
    the root is a directory and no regular file is in the way of the
    collection directory; the path of the temporary file is one the kernel
    takes, but its last name, the resource name with [.json.tmp] behind it,
    has more than [NAME_MAX] bytes.  Then [Write] fails in
    [ioutil.WriteFile] with [ENAMETOOLONG]: no file is written, and all
    that may have changed is that the collection directory exists. *)
Theorem Write_name_too_long (C R b : string) (v : V) (fi : os.FileInfo) (s : state) :
  is_name C → R ≠ "" → sep_free R → MarshalIndent v "" tab = Ok b →
  os.Stat (dir (self s)) (disk s) = Ok fi → os.IsDir fi = true →
  let folder := Join [dir (self s); C] in
  let tmp := Join [folder; R +:+ ".json"] +:+ ".tmp" in
  (∀ fi', os.Stat folder (disk s) = Ok fi' → os.IsDir fi' = true) →
  os.name_ok C → os.refused tmp = None →
  os.NAME_MAX < String.length (R +:+ ".json" +:+ ".tmp") →
  let s' := (Write C R v s).2 in
  (Write C R v s).1 = Some (PathError "open" tmp ENAMETOOLONG) ∧
  ∃ loc, os.resolve (disk s) folder = Some loc ∧
    os.nodes (disk s') !! loc = Some os.Dir ∧
    ∀ k, k ≠ loc → os.nodes (disk s') !! k = os.nodes (disk s) !! k.
Proof.
  intros HC HR HRfree Hb Hstat Hisdir folder tmp Hnofile HCshort Href Hlong s'.
  apply Stat_inv in Hstat as (root & n & Hroot & Hwalk & Hn).
  rewrite Hisdir in Hn. destruct n as [|?]; [clear Hn|done].
  pose proof (resolve_not_empty _ _ _ Hroot) as Hd.
  pose proof HC as (HCne & _)%is_name_spec.
  pose proof (is_name_json R HRfree) as Hjson.
  assert (is_name ((R +:+ ".json") +:+ ".tmp")) as Htmpname
    by by apply is_name_suffix.
  set (loc := root ++ [C]).
  assert (os.resolve (disk s) folder = Some loc) as Hrfolder
    by by apply resolve_Join_2.
  assert (os.resolve (disk s) tmp = Some (loc ++ [R +:+ ".json" +:+ ".tmp"]))
    as Hrtmp.
  { unfold tmp, folder.
    rewrite Join_Join, Join_3_suffix, (resolve_Join_3 _ _ _ _ root) by done.
    unfold loc. by rewrite <-app_assoc, str_app_assoc. }
  assert (os.nodes (disk s) !! loc = None ∨ os.nodes (disk s) !! loc = Some os.Dir)
    as Hloc.
  { destruct (os.nodes (disk s) !! loc) as [[|d]|] eqn:E; auto. exfalso.
    destruct (Stat_found folder (disk s) loc (os.File d)) as (fi' & Hst & Hfile);
      [done| |].
    - unfold loc. rewrite (walk_snoc _ _ _ Hwalk). fold loc. by rewrite E.
    - by rewrite (Hnofile _ Hst) in Hfile. }
  assert (os.refused folder = None) as Hreffolder.
  { unfold tmp in Href. apply refused_app_l in Href. unfold folder in Href.
    rewrite Join_Join, Join_snoc_name in Href by done.
    by apply refused_app_l in Href. }
  destruct (Write_run C R v b s HCne HR Hb) as (mx & reg & next & _ & Hrun).
  fold folder in Hrun. fold tmp in Hrun.
  set (m1 := <[loc := os.Dir]> (os.nodes (disk s))).
  assert (os.MkdirAll folder (disk s) = (None, os.mkFS (os.cwd (disk s)) m1)) as Hmk.
  { rewrite (MkdirAll_child _ _ root C) by auto. fold loc.
    unfold m1. destruct Hloc as [-> | Hdir]; [done|]. by rewrite Hdir, insert_id. }
  pose proof Hwalk as [Hrootdir Hrootanc]%walk_inr.
  assert (os.walk m1 [] loc = inr os.Dir) as Hwalk1.
  { apply walk_inr. split; [apply lookup_insert_eq|].
    apply ancestors_ok_insert; [|auto]. by apply ancestors_ok_snoc. }
  rewrite Hmk in Hrun. simpl in Hrun.
  rewrite (WriteFile_long _ _ _ loc (R +:+ ".json" +:+ ".tmp")) in Hrun;
    [|by rewrite resolve_cwd|done..].
  simpl in Hrun. unfold s'. rewrite Hrun. simpl. split; [done|].
  exists loc. split; [done|]. split; [apply lookup_insert_eq|].
  intros k Hk. unfold m1. by rewrite lookup_insert_ne.
Qed.

End suffixes.

(** ** Runs on the small disk *)

(** C1: [Read] does not find what [Write] has just written.  [Write] puts
    the record of resource [John] into [db/users/John.json]; [Read] probes
    that path, then opens [db/users/John.json.json], which does not exist,
    and returns the error without touching the target. *)
Theorem Read_after_Write_not_found :
  let written := Write "users" "John" 30%Z Demo.booted in
  written.1 = None ∧
  os.ReadFile "db/users/John.json" (disk written.2) = Ok ("30" +:+ newline) ∧
  (Read "users" "John" 0%Z written.2).1
  = (Some (PathError "open" "db/users/John.json.json" ENOENT), 0%Z).
Proof. by vm_compute. Qed.

(** C7: [Read] of a resource that has no file succeeds when the collection
    holds a resource whose name is that name with [.json] behind it: with
    only [John.json] written, there is no [db/users/John.json], and
    [Read("users", "John")] decodes the record of [John.json] into the
    target. *)
Theorem Read_unwritten_resource_succeeds :
  let s := (Write "users" "John.json" 7%Z Demo.booted).2 in
  os.Stat "db/users/John.json" (disk s)
  = Err (PathError "stat" "db/users/John.json" ENOENT) ∧
  (Read "users" "John" 0%Z s).1 = (None, 7%Z).
Proof. by vm_compute. Qed.

Lemma Delete_with_extension_removes_nothing :
  let s := (Write "users" "Mary" 25%Z (Write "users" "John" 30%Z Demo.booted).2).2 in
  let deleted := Delete "users" "John.json" s in
  deleted.1 = None ∧ disk deleted.2 = disk s ∧
  os.ReadFile "db/users/John.json" (disk deleted.2) = Ok ("30" +:+ newline).
Proof. by vm_compute. Qed.

Lemma Delete_root_dot_fails :
  let s := (New "./" Demo.fresh_disk).2 in
  let deleted := Delete "" "" s in
  dir (self s) = "." ∧
  os.Stat (dir (self s)) (disk s) = Ok (os.mkFileInfo "app" true) ∧
  deleted.1 = Some (PathError "RemoveAll" "." EINVAL) ∧
  disk deleted.2 = disk s.
Proof. by vm_compute. Qed.

Lemma Write_commits_by_rename_witness :
  let s := Demo.booted in
  let s' := (Write "users" "John" 30%Z s).2 in
  let data := "30" +:+ String "010"%char "" in
  MarshalIndent 30%Z "" (String "009"%char "") = Ok "30" ∧
  (Write "users" "John" 30%Z s).1 = None ∧
  (∃ m, trace s'
        = trace s ++ [EvLock RegistryMu; EvUnlock RegistryMu; EvLock (Mutex m)]
            ++ (EvCall <$> [CallMkdirAll "db/users";
                            CallWriteFile "db/users/John.json.tmp" data;
                            CallRename "db/users/John.json.tmp" "db/users/John.json"])
            ++ [EvUnlock (Mutex m)]) ∧
  os.ReadFile "db/users/John.json" (disk s') = Ok data ∧
  os.Stat "db/users/John.json.tmp" (disk s')
  = Err (PathError "stat" "db/users/John.json.tmp" ENOENT).
Proof.
  intros s s' data.
  assert ((Write "users" "John" 30%Z s).1 = None) as Hnone by (vm_compute; reflexivity).
  destruct (Write_commits_by_rename "users" "John" 30%Z "30" s)
    as (m & calls & loc & _ & Htrace & _ & _ & _ & _ & _ & Hok & _);
    [discriminate|discriminate|reflexivity|].
  destruct (Hok Hnone) as [-> Hread].
  split; [reflexivity|]. split; [exact Hnone|]. split; [by exists m|].
  split; [exact Hread|]. vm_compute. reflexivity.
Defined.

Lemma Delete_removes_the_resource_file_witness :
  let s := Demo.two_users in
  let file r := filepath.Join [filepath.Join [dir (self s); "users"]; r +:+ ".json"] in
  (Delete "users" "John" s).1 = None ∧
  os.ReadFile (file "John") (disk (Delete "users" "John" s).2)
  = Err (PathError "open" (file "John") ENOENT) ∧
  os.ReadFile (file "Mary") (disk (Delete "users" "John" s).2)
  = os.ReadFile (file "Mary") (disk s).
Proof.
  intros s file.
  assert (dir (self s) ≠ "") as Hd by (vm_compute; discriminate).
  assert (filepath.is_name "users") as HC by (vm_compute; exact I).
  assert (filepath.is_name "John") as HR by (vm_compute; exact I).
  assert (os.ReadFile (file "John") (disk s) = Ok ("30" +:+ newline)) as Hfile
    by (vm_compute; reflexivity).
  assert (∀ fi, os.Stat (filepath.Join [dir (self s); "users"; "John"]) (disk s) = Ok fi
                → os.IsDir fi = false) as Hnodir.
  { intros fi Hfi. vm_compute in Hfi. discriminate Hfi. }
  pose proof (Delete_removes_the_resource_file "users" "John" ("30" +:+ newline) s
                Hd HC HR Hfile Hnodir) as (Hok & Hgone & Hframe & _).
  split; [exact Hok|]. split; [exact Hgone|].
  apply Hframe; [vm_compute; exact I|vm_compute; discriminate].
Defined.


Lemma Delete_removes_the_root_witness :
  dir (self Demo.two_users) = filepath.Clean "db" ∧
  (Delete "" "" Demo.two_users).1 = None ∧
  os.Stat "db" (disk (Delete "" "" Demo.two_users).2)
  = Err (PathError "stat" "db" ENOENT).
Proof.
  destruct (Delete_removes_the_root "db" (os.mkFileInfo "db" true) Demo.two_users)
    as (Hok & _ & Hgone & _).
  - reflexivity.
  - by vm_compute.
  - by vm_compute.
  - reflexivity.
  - split_and!; [reflexivity|exact Hok|exact Hgone].
Defined.

Lemma Write_unencodable_value_witness :
  let s := Demo.booted in
  let folder := filepath.Join [dir (self s); "users"] in
  (Write "users" "John" (tt : GoChan.t) s).1
  = Some (default (JSONError "json: unsupported type: chan int")
                  (os.MkdirAll folder (disk s)).1) ∧
  disk (Write "users" "John" (tt : GoChan.t) s).2 = (os.MkdirAll folder (disk s)).2.
Proof.
  intros s folder.
  pose proof (Write_unencodable_value "users" "John" (tt : GoChan.t)
                (JSONError "json: unsupported type: chan int") s) as Hw.
  destruct Hw as (Hret & Hdisk & _); [discriminate|discriminate|reflexivity|].
  split; [exact Hret|exact Hdisk].
Defined.

Lemma Delete_not_found_witness :
  let s := Demo.booted in
  let path := filepath.Join ["users"; "John"] in
  (Delete "users" "John" s).1
  = Some (Errorf ("unable to find file or dir named " +:+ path)) ∧
  disk (Delete "users" "John" s).2 = disk s.
Proof.
  intros s path.
  apply (Delete_not_found "users" "John"
           (PathError "stat" "db/users/John.json" ENOENT) s).
  vm_compute. reflexivity.
Defined.

Lemma ReadAll_all_or_nothing_witness :
  let s := Demo.two_users in
  let folder := filepath.Join [dir (self s); "users"] in
  ∃ files, os.ReadDir folder (disk s) = Ok files ∧
    Forall2 (λ file data,
               os.ReadFile (filepath.Join [folder; os.Name file]) (disk s) = Ok data)
            files ["30" +:+ newline; "25" +:+ newline].
Proof.
  intros s folder.
  assert ((ReadAll "users" s).1 = Ok ["30" +:+ newline; "25" +:+ newline]) as Hall
    by (vm_compute; reflexivity).
  assert ("users" ≠ "") as HC by discriminate.
  exact (proj2 (proj1 (ReadAll_all_or_nothing "users" _ s HC) Hall)).
Defined.

Lemma Read_opens_the_double_suffix_witness :
  let s := Demo.run (Write "users" "John" 30%Z) Demo.booted in
  let file := filepath.Join [filepath.Join [dir (self s); "users"]; "John" +:+ ".json"] in
  (Read "users" "John" 0%Z s).1 =
    match os.ReadFile (file +:+ ".json") (disk s) with
    | Ok b => Unmarshal b 0%Z
    | Err err => (Some err, 0%Z)
    end.
Proof.
  intros s file.
  apply (Read_opens_the_double_suffix "users" "John" ("30" +:+ newline) 0%Z s).
  - vm_compute. discriminate.
  - discriminate.
  - discriminate.
  - vm_compute. reflexivity.
Defined.

Lemma Read_returns_the_suffixed_resource_witness :
  let s := Demo.booted in
  (Read "users" "John" 0%Z (Write "users" ("John" +:+ ".json") 30%Z s).2).1
  = Unmarshal ("30" +:+ newline) 0%Z.
Proof.
  intros s.
  apply (Read_returns_the_suffixed_resource "users" "John" "30" 30%Z 0%Z s).
  - vm_compute. discriminate.
  - vm_compute. exact I.
  - discriminate.
  - vm_compute. exact I.
  - reflexivity.
  - vm_compute. reflexivity.
Defined.

Lemma Delete_with_extension_is_silent_witness :
  let s := Demo.two_users in
  (Delete "users" ("John" +:+ ".json") s).1 = None ∧
  disk (Delete "users" ("John" +:+ ".json") s).2 = disk s.
Proof.
  intros s.
  apply (Delete_with_extension_is_silent "users" "John" ("30" +:+ newline) s).
  - vm_compute. discriminate.
  - vm_compute. exact I.
  - vm_compute. exact I.
  - vm_compute. reflexivity.
  - vm_compute. reflexivity.
Defined.

Lemma Delete_prefers_the_directory_witness :
  let s := Demo.run (Write "users/John" "x" 1%Z)
             (Demo.run (Write "users" "John" 30%Z) Demo.booted) in
  let file := filepath.Join [filepath.Join [dir (self s); "users"]; "John" +:+ ".json"] in
  (Delete "users" "John" s).1 = None ∧
  os.ReadFile file (disk (Delete "users" "John" s).2) = os.ReadFile file (disk s).
Proof.
  intros s file.
  assert (dir (self s) ≠ "") as Hd by (vm_compute; discriminate).
  assert (filepath.is_name "users") as HC by (vm_compute; exact I).
  assert (filepath.is_name "John") as HR by (vm_compute; exact I).
  assert (os.Stat (filepath.Join [dir (self s); "users"; "John"]) (disk s)
          = Ok (os.mkFileInfo "John" true)) as Hstat by (vm_compute; reflexivity).
  pose proof (Delete_prefers_the_directory "users" "John" _ s Hd HC HR Hstat eq_refl)
    as (Hok & _ & Hfile & _).
  split; [exact Hok|exact Hfile].
Defined.

Lemma Write_changes_only_its_file_witness :
  let s := Demo.booted in
  let file := filepath.Join [filepath.Join [dir (self s); "users"]; "John" +:+ ".json"] in
  os.Stat (file +:+ ".tmp") (disk (Write "users" "John" 30%Z s).2)
  = Err (PathError "stat" (file +:+ ".tmp") ENOENT).
Proof.
  intros s file.
  assert (filepath.is_name "users") as HC by (vm_compute; exact I).
  assert ("John" ≠ "") as HR by discriminate.
  assert (filepath.sep_free "John") as HRfree by (vm_compute; exact I).
  assert (os.Stat (dir (self s)) (disk s) = Ok (os.mkFileInfo "db" true)) as Hstat
    by (vm_compute; reflexivity).
  assert ((Write "users" "John" 30%Z s).1 = None) as Hok by (vm_compute; reflexivity).
  exact (proj1 (Write_changes_only_its_file "users" "John" "30" 30%Z _ s
                  HC HR HRfree eq_refl Hstat eq_refl Hok)).
Defined.

Lemma Write_into_a_file_fails_witness :
  let s := Demo.run (Write "users" "John" 30%Z) Demo.booted in
  let folder := filepath.Join [dir (self s); "users/John.json"] in
  (Write "users/John.json" "x" 1%Z s).1 = Some (PathError "mkdir" folder ENOTDIR) ∧
  disk (Write "users/John.json" "x" 1%Z s).2 = disk s.
Proof.
  intros s folder.
  apply (Write_into_a_file_fails "users/John.json" "x" 1%Z
           (os.mkFileInfo "John.json" false) s).
  - discriminate.
  - discriminate.
  - vm_compute. reflexivity.
  - reflexivity.
Defined.

Lemma ReadAll_returns_what_was_written_witness :
  let s := Demo.booted in
  let records := [("John", 30%Z); ("Mary", 25%Z)] in
  let written := write_all "users" records s in
  Forall (λ e, e = None) written.1 ∧
  ∃ blobs, (ReadAll "users" written.2).1 = Ok blobs ∧
           length blobs = length records ∧
           blobs ≡ₚ (λ rv, GoInt.marshal rv.2 +:+ newline) <$> records.
Proof.
  intros s records written.
  assert (filepath.is_name "users") as HC by (vm_compute; exact I).
  assert (records ≠ []) as Hne by discriminate.
  assert (NoDup records.*1) as Hnd.
  { apply (bool_decide_unpack _). vm_compute. reflexivity. }
  assert (Forall (λ rv : string * Z, rv.1 ≠ "" ∧ filepath.sep_free rv.1) records)
    as Hnames.
  { repeat constructor; (discriminate || (vm_compute; exact I)). }
  assert (∀ rv : string * Z, rv ∈ records →
            MarshalIndent rv.2 "" tab = Ok (GoInt.marshal rv.2)) as Henc
    by (intros rv _; reflexivity).
  assert (os.Stat (dir (self s)) (disk s) = Ok (os.mkFileInfo "db" true)) as Hstat
    by (vm_compute; reflexivity).
  assert (os.nodes (disk s)
          = list_to_map [([], os.Dir); (["home"], os.Dir); (Demo.home, os.Dir);
                         (Demo.home ++ ["db"], os.Dir)]) as Hdisk
    by (vm_compute; reflexivity).
  assert (os.name_ok "users") as HCshort by (vm_compute; exact I).
  assert (Forall (λ rv : string * Z,
                    os.name_ok (rv.1 +:+ ".json" +:+ ".tmp") ∧
                    os.refused (filepath.Join [filepath.Join [dir (self s); "users"];
                                               rv.1 +:+ ".json"] +:+ ".tmp") = None)
                 records) as Hlimits.
  { constructor; [split; [vm_compute; exact I|vm_compute; reflexivity]|].
    constructor; [split; [vm_compute; exact I|vm_compute; reflexivity]|].
    constructor. }
  pose proof (ReadAll_returns_what_was_written "users" GoInt.marshal records _ s
                HC Hne Hnd Hnames Henc Hstat eq_refl HCshort Hlimits) as Hall.
  destruct Hall as (Hoks & _ & _ & Hblobs); [|split; [exact Hoks|exact Hblobs]].
  intros loc Hloc. vm_compute in Hloc. injection Hloc as <-.
  rewrite Hdisk. split.
  - left. vm_compute. reflexivity.
  - intros name. apply not_elem_of_list_to_map_1. simpl.
    rewrite !elem_of_cons, elem_of_nil. intros [E|[E|[E|[E|[]]]]]; discriminate E.
Defined.

Lemma Read_of_a_missing_resource_witness :
  let s := Demo.two_users in
  let record := filepath.Join [dir (self s); "users"; "Peter" +:+ ".json"] in
  (Read "users" "Peter" 0%Z s).1
  = (Some (PathError "stat" (record +:+ ".json") ENOENT), 0%Z) ∧
  disk (Read "users" "Peter" 0%Z s).2 = disk s.
Proof.
  intros s record.
  apply (Read_of_a_missing_resource "users" "Peter" 0%Z s).
  - discriminate.
  - discriminate.
  - vm_compute. reflexivity.
  - vm_compute. reflexivity.
Defined.

Lemma Write_and_Delete_hold_the_lock_witness :
  let s := Demo.booted in
  ∃ m calls,
    calls ≠ [] ∧ mutexes (self (Write "users" "John" 30%Z s).2) !! "users" = Some m ∧
    trace (Write "users" "John" 30%Z s).2
    = trace s ++ [EvLock RegistryMu; EvUnlock RegistryMu; EvLock (Mutex m)]
        ++ (EvCall <$> calls) ++ [EvUnlock (Mutex m)].
Proof.
  intros s.
  apply (proj1 (Write_and_Delete_hold_the_lock "users" "John" 30%Z s)); discriminate.
Defined.

Lemma New_root_exists_afterwards_witness :
  let fs := Demo.fresh_disk in
  os.Stat "db" fs = Err (PathError "stat" "db" ENOENT) ∧
  (New "db" fs).1 = None ∧
  ∃ fi, os.Stat (filepath.Clean "db") (disk (New "db" fs).2) = Ok fi ∧
        os.IsDir fi = true.
Proof.
  intros fs.
  assert (os.Stat (filepath.Clean "db") fs = Err (PathError "stat" "db" ENOENT)) as Hno
    by (vm_compute; reflexivity).
  assert ((New "db" fs).1 = None) as Hok by (vm_compute; reflexivity).
  split; [vm_compute; reflexivity|]. split; [exact Hok|].
  destruct (New_root_exists_afterwards "db" fs) as (_ & Hmade & _).
  exact (Hmade _ Hno Hok).
Defined.

Lemma Write_name_too_long_witness :
  let s := Demo.booted in
  let R := Demo.long_name in
  let tmp := filepath.Join [filepath.Join [dir (self s); "users"]; R +:+ ".json"]
             +:+ ".tmp" in
  String.length R = 250 ∧
  (Write "users" R 1%Z s).1 = Some (PathError "open" tmp ENAMETOOLONG).
Proof.
  intros s R tmp. split; [vm_compute; reflexivity|].
  assert (filepath.is_name "users") as HC by (vm_compute; exact I).
  assert (R ≠ "") as HR by (vm_compute; discriminate).
  assert (filepath.sep_free R) as HRfree by (vm_compute; exact I).
  assert (os.Stat (dir (self s)) (disk s) = Ok (os.mkFileInfo "db" true)) as Hstat
    by (vm_compute; reflexivity).
  assert (∀ fi', os.Stat (filepath.Join [dir (self s); "users"]) (disk s) = Ok fi' →
                 os.IsDir fi' = true) as Hnofile.
  { intros fi' E. vm_compute in E. discriminate E. }
  assert (os.name_ok "users") as HCshort by (vm_compute; exact I).
  assert (os.refused tmp = None) as Href by (vm_compute; reflexivity).
  assert (os.NAME_MAX < String.length (R +:+ ".json" +:+ ".tmp")) as Hlong.
  { apply (bool_decide_unpack _). vm_compute. reflexivity. }
  exact (proj1 (Write_name_too_long "users" R "1" 1%Z _ s
                  HC HR HRfree eq_refl Hstat eq_refl Hnofile HCshort Href Hlong)).
Defined.
